(** * ioncore-python: the GPB object wrapper and the AIS metadata cache

    A shallow embedding of [ion/core/object/gpb_wrapper.py] (classes
    [Wrapper], [ContainerWrapper], [ScalarContainerWrapper] and
    [StructureElement]) and of the cache dictionary of
    [ion/integration/ais/common/metadata_cache.py].

    Python objects live in heaps indexed by their identity; every method
    is a computation in a state-and-exception monad, so that the state in
    which an exception is raised stays observable. *)

From stdpp Require Import gmap strings list fin_maps pretty.
From Stdlib Require Import ZArith.

Set Default Proof Using "Type".
Open Scope string_scope.

(** Identity of a Python object ([id(obj)]); protobuf messages and
    containers hash by identity, so [obj.__hash__()] is modelled by it. *)
Abbreviation ObjId := nat (only parsing).
(** Identity of a generated protobuf message class. *)
Abbreviation ClassId := nat (only parsing).

(** ** Exceptions *)

(** [OOIObjectError] is split by the message the source raises it with. *)
Inductive Error :=
| InvalidatedObjectError   (* 'Can not access Invalidated Object ...' *)
| ReadOnlyError            (* 'This object wrapper is read only!' *)
| NotALinkError            (* 'Can not set link for non link type!', 'The field is not a link!' *)
| NoAttributeError         (* '"Wrapper" object for GPB class ...; has no attribute ...' *)
| NoSuchFieldError         (* 'The object definition does not have a field named ...' *)
| IllegalValueError        (* 'To set an item in a repeated field container, the value must be a Wrapper',
                              'It is illegal to set a value of a repeated composit field unless ...' *)
| NotAMessageError         (* 'Wrapper init argument must be an instance of a GPB message',
                              'The Container Wrapper is only for use with Repeated ... Containers' *)
| RepositoryError (msg : string)
| KeyError
| IndexError
| AttributeError
| TypeError
| ValueError
| AssertionError
| NameError
| EncodeError.

Global Instance Error_eq_dec : EqDecision Error.
Proof. solve_decision. Defined.

(** ** Protocol buffer objects *)

(** [net.ooici.core.type.GPBType]: the type identifier of a message class. *)
Record GPBType := create_type_identifier { object_id : Z; version : Z }.

Global Instance GPBType_eq_dec : EqDecision GPBType.
Proof. solve_decision. Defined.

Inductive Scalar :=
| SInt (z : Z)
| SStr (s : string)
| SBool (b : bool).

Global Instance Scalar_eq_dec : EqDecision Scalar.
Proof. solve_decision. Defined.

(** Field declarations of a message descriptor. *)
Inductive FieldDecl :=
| DScalar (default : Scalar)
| DRepeatedScalar (default : Scalar)
| DRepeatedComposite (cls : ClassId)
| DMessage (cls : ClassId).

(** What the wrapper reads from a generated class: [DESCRIPTOR.fields_by_name],
    the values of [DESCRIPTOR.enum_types], and the registered type identifier
    ([get_type_from_obj], which fails for classes that carry none). *)
Record Descriptor := {
  fields_by_name : list (string * FieldDecl);
  enum_values : list (string * Z);
  type_identifier : option GPBType
}.

(** A set field of a message: a scalar value, or the identity of the
    sub-message or container created for it. *)
Inductive FieldVal :=
| VScalar (v : Scalar)
| VObj (o : ObjId).

Inductive GpbObj :=
| GMessage (cls : ClassId) (fields : gmap string FieldVal)
| GRepeatedScalar (values : list Scalar)
| GRepeatedComposite (cls : ClassId) (items : list ObjId).

(** ** Structure elements *)

(** [StructureElement]: the wrapped [container_pb2.StructureElement]
    (key, type, isleaf, value) and the Python set [ChildLinks] of keys. *)
Record StructureElement := {
  se_key : string;
  se_type : GPBType;
  se_isleaf : bool;
  se_value : string;
  se_ChildLinks : gset string
}.

Global Instance StructureElement_eq_dec : EqDecision StructureElement.
Proof. solve_decision. Defined.

(** ** Values that flow through attribute access *)

Inductive PyVal :=
| PNone
| PScalar (v : Scalar)
| PObj (o : ObjId)                       (* a wrapper, container wrapper, repository or message *)
| PType (t : GPBType)
| PClass (c : ClassId)
| PSet (xs : gset ObjId)
| PDict (d : gmap ObjId ObjId)
| PNames (l : list string)
| PMethod (name : string).               (* a bound method of the wrapper *)

(** ** Wrapper instances *)

Record Wrapper := {
  _gpbFields : list string;
  _invalid : bool;
  _gpbMessage : option ObjId;
  _GPBClass : ClassId;
  _gpb_type : option GPBType;
  _root : option ObjId;
  _bytes : option string;
  _parent_links : option (gset ObjId);
  _child_links : option (gset ObjId);
  _derived_wrappers : option (gmap ObjId ObjId);
  _myid : option string;
  _modified : option bool;
  _read_only : option bool;
  _repository : option ObjId;
  (* attributes created by a plain assignment to a name the class does not
     declare, such as [read_only] in SetStructureReadOnly *)
  _other_attributes : gmap string PyVal
}.

(** [ContainerWrapper] and [ScalarContainerWrapper] instances. *)
Record ContainerWrapperObj := {
  cw_scalar : bool;                      (* true for ScalarContainerWrapper *)
  cw_wrapper : option ObjId;             (* _wrapper *)
  cw_gpbcontainer : option ObjId;        (* _gpbcontainer *)
  cw_Repository : option ObjId           (* Repository *)
}.

(** The attributes of a repository that the wrapper touches directly.
    [_object_counter] is only used by the modelled [new_id]. *)
Record Repository := {
  _workspace : gmap string ObjId;
  _hashed_elements : gmap string StructureElement;
  _workspace_root : option ObjId;
  _object_counter : nat
}.

Record State := {
  gpb_heap : gmap ObjId GpbObj;
  wrappers : gmap ObjId Wrapper;
  cwrappers : gmap ObjId ContainerWrapperObj;
  repos : gmap ObjId Repository;
  next_id : ObjId
}.

(** ** The state and exception monad *)

Inductive Result (A : Type) :=
| Ok (a : A) (s : State)
| Raise (e : Error) (s : State)
| OutOfFuel.
Arguments Ok {A} a s.
Arguments Raise {A} e s.
Arguments OutOfFuel {A}.

Definition M (A : Type) := State → Result A.

Definition ret {A} (a : A) : M A := λ s, Ok a s.
Definition raise {A} (e : Error) : M A := λ s, Raise e s.
Definition bind {A B} (m : M A) (k : A → M B) : M B :=
  λ s, match m s with
       | Ok a s' => k a s'
       | Raise e s' => Raise e s'
       | OutOfFuel => OutOfFuel
       end.
Definition out_of_fuel {A} : M A := λ _, OutOfFuel.
Definition get_state : M State := λ s, Ok s s.
Definition modify_state (f : State → State) : M unit := λ s, Ok tt (f s).

Global Instance M_ret : MRet M := @ret.
Global Instance M_bind : MBind M := λ A B k m, bind m k.
Global Instance M_fmap : FMap M := λ A B f m, bind m (λ a, ret (f a)).

(** [try: m except e: h] *)
Definition try_except {A} (m : M A) (e : Error) (h : M A) : M A :=
  λ s, match m s with
       | Raise e' s' => if decide (e' = e) then h s' else Raise e' s'
       | r => r
       end.

(** [for x in xs: body x] *)
Fixpoint for_each {A} (xs : list A) (body : A → M unit) : M unit :=
  match xs with
  | [] => ret tt
  | x :: rest => body x;; for_each rest body
  end.

(** Truth value of an attribute that is [None], [True] or [False]. *)
Definition truthy (b : option bool) : bool := default false b.

(** Functional updates of the records. *)
Definition set_gpb_heap (f : gmap ObjId GpbObj → gmap ObjId GpbObj) (s : State) : State :=
  {| gpb_heap := f (gpb_heap s); wrappers := wrappers s; cwrappers := cwrappers s;
     repos := repos s; next_id := next_id s |}.
Definition set_wrappers (f : gmap ObjId Wrapper → gmap ObjId Wrapper) (s : State) : State :=
  {| gpb_heap := gpb_heap s; wrappers := f (wrappers s); cwrappers := cwrappers s;
     repos := repos s; next_id := next_id s |}.
Definition set_cwrappers (f : gmap ObjId ContainerWrapperObj → gmap ObjId ContainerWrapperObj)
    (s : State) : State :=
  {| gpb_heap := gpb_heap s; wrappers := wrappers s; cwrappers := f (cwrappers s);
     repos := repos s; next_id := next_id s |}.
Definition set_repos (f : gmap ObjId Repository → gmap ObjId Repository) (s : State) : State :=
  {| gpb_heap := gpb_heap s; wrappers := wrappers s; cwrappers := cwrappers s;
     repos := f (repos s); next_id := next_id s |}.
Definition set_next_id (n : ObjId) (s : State) : State :=
  {| gpb_heap := gpb_heap s; wrappers := wrappers s; cwrappers := cwrappers s;
     repos := repos s; next_id := n |}.

Definition with_invalid (b : bool) (w : Wrapper) : Wrapper :=
  {| _gpbFields := _gpbFields w; _invalid := b; _gpbMessage := _gpbMessage w;
     _GPBClass := _GPBClass w; _gpb_type := _gpb_type w; _root := _root w;
     _bytes := _bytes w; _parent_links := _parent_links w; _child_links := _child_links w;
     _derived_wrappers := _derived_wrappers w; _myid := _myid w; _modified := _modified w;
     _read_only := _read_only w; _repository := _repository w;
     _other_attributes := _other_attributes w |}.
Definition with_gpbFields (v : list string) (w : Wrapper) : Wrapper :=
  {| _gpbFields := v; _invalid := _invalid w; _gpbMessage := _gpbMessage w;
     _GPBClass := _GPBClass w; _gpb_type := _gpb_type w; _root := _root w;
     _bytes := _bytes w; _parent_links := _parent_links w; _child_links := _child_links w;
     _derived_wrappers := _derived_wrappers w; _myid := _myid w; _modified := _modified w;
     _read_only := _read_only w; _repository := _repository w;
     _other_attributes := _other_attributes w |}.
Definition with_gpbMessage (v : option ObjId) (w : Wrapper) : Wrapper :=
  {| _gpbFields := _gpbFields w; _invalid := _invalid w; _gpbMessage := v;
     _GPBClass := _GPBClass w; _gpb_type := _gpb_type w; _root := _root w;
     _bytes := _bytes w; _parent_links := _parent_links w; _child_links := _child_links w;
     _derived_wrappers := _derived_wrappers w; _myid := _myid w; _modified := _modified w;
     _read_only := _read_only w; _repository := _repository w;
     _other_attributes := _other_attributes w |}.
Definition with_root (v : option ObjId) (w : Wrapper) : Wrapper :=
  {| _gpbFields := _gpbFields w; _invalid := _invalid w; _gpbMessage := _gpbMessage w;
     _GPBClass := _GPBClass w; _gpb_type := _gpb_type w; _root := v;
     _bytes := _bytes w; _parent_links := _parent_links w; _child_links := _child_links w;
     _derived_wrappers := _derived_wrappers w; _myid := _myid w; _modified := _modified w;
     _read_only := _read_only w; _repository := _repository w;
     _other_attributes := _other_attributes w |}.
Definition with_bytes (v : option string) (w : Wrapper) : Wrapper :=
  {| _gpbFields := _gpbFields w; _invalid := _invalid w; _gpbMessage := _gpbMessage w;
     _GPBClass := _GPBClass w; _gpb_type := _gpb_type w; _root := _root w;
     _bytes := v; _parent_links := _parent_links w; _child_links := _child_links w;
     _derived_wrappers := _derived_wrappers w; _myid := _myid w; _modified := _modified w;
     _read_only := _read_only w; _repository := _repository w;
     _other_attributes := _other_attributes w |}.
Definition with_parent_links (v : option (gset ObjId)) (w : Wrapper) : Wrapper :=
  {| _gpbFields := _gpbFields w; _invalid := _invalid w; _gpbMessage := _gpbMessage w;
     _GPBClass := _GPBClass w; _gpb_type := _gpb_type w; _root := _root w;
     _bytes := _bytes w; _parent_links := v; _child_links := _child_links w;
     _derived_wrappers := _derived_wrappers w; _myid := _myid w; _modified := _modified w;
     _read_only := _read_only w; _repository := _repository w;
     _other_attributes := _other_attributes w |}.
Definition with_child_links (v : option (gset ObjId)) (w : Wrapper) : Wrapper :=
  {| _gpbFields := _gpbFields w; _invalid := _invalid w; _gpbMessage := _gpbMessage w;
     _GPBClass := _GPBClass w; _gpb_type := _gpb_type w; _root := _root w;
     _bytes := _bytes w; _parent_links := _parent_links w; _child_links := v;
     _derived_wrappers := _derived_wrappers w; _myid := _myid w; _modified := _modified w;
     _read_only := _read_only w; _repository := _repository w;
     _other_attributes := _other_attributes w |}.
Definition with_derived_wrappers (v : option (gmap ObjId ObjId)) (w : Wrapper) : Wrapper :=
  {| _gpbFields := _gpbFields w; _invalid := _invalid w; _gpbMessage := _gpbMessage w;
     _GPBClass := _GPBClass w; _gpb_type := _gpb_type w; _root := _root w;
     _bytes := _bytes w; _parent_links := _parent_links w; _child_links := _child_links w;
     _derived_wrappers := v; _myid := _myid w; _modified := _modified w;
     _read_only := _read_only w; _repository := _repository w;
     _other_attributes := _other_attributes w |}.
Definition with_myid (v : option string) (w : Wrapper) : Wrapper :=
  {| _gpbFields := _gpbFields w; _invalid := _invalid w; _gpbMessage := _gpbMessage w;
     _GPBClass := _GPBClass w; _gpb_type := _gpb_type w; _root := _root w;
     _bytes := _bytes w; _parent_links := _parent_links w; _child_links := _child_links w;
     _derived_wrappers := _derived_wrappers w; _myid := v; _modified := _modified w;
     _read_only := _read_only w; _repository := _repository w;
     _other_attributes := _other_attributes w |}.
Definition with_modified (v : option bool) (w : Wrapper) : Wrapper :=
  {| _gpbFields := _gpbFields w; _invalid := _invalid w; _gpbMessage := _gpbMessage w;
     _GPBClass := _GPBClass w; _gpb_type := _gpb_type w; _root := _root w;
     _bytes := _bytes w; _parent_links := _parent_links w; _child_links := _child_links w;
     _derived_wrappers := _derived_wrappers w; _myid := _myid w; _modified := v;
     _read_only := _read_only w; _repository := _repository w;
     _other_attributes := _other_attributes w |}.
Definition with_read_only (v : option bool) (w : Wrapper) : Wrapper :=
  {| _gpbFields := _gpbFields w; _invalid := _invalid w; _gpbMessage := _gpbMessage w;
     _GPBClass := _GPBClass w; _gpb_type := _gpb_type w; _root := _root w;
     _bytes := _bytes w; _parent_links := _parent_links w; _child_links := _child_links w;
     _derived_wrappers := _derived_wrappers w; _myid := _myid w; _modified := _modified w;
     _read_only := v; _repository := _repository w;
     _other_attributes := _other_attributes w |}.
Definition with_repository (v : option ObjId) (w : Wrapper) : Wrapper :=
  {| _gpbFields := _gpbFields w; _invalid := _invalid w; _gpbMessage := _gpbMessage w;
     _GPBClass := _GPBClass w; _gpb_type := _gpb_type w; _root := _root w;
     _bytes := _bytes w; _parent_links := _parent_links w; _child_links := _child_links w;
     _derived_wrappers := _derived_wrappers w; _myid := _myid w; _modified := _modified w;
     _read_only := _read_only w; _repository := v;
     _other_attributes := _other_attributes w |}.
Definition with_other_attributes (v : gmap string PyVal) (w : Wrapper) : Wrapper :=
  {| _gpbFields := _gpbFields w; _invalid := _invalid w; _gpbMessage := _gpbMessage w;
     _GPBClass := _GPBClass w; _gpb_type := _gpb_type w; _root := _root w;
     _bytes := _bytes w; _parent_links := _parent_links w; _child_links := _child_links w;
     _derived_wrappers := _derived_wrappers w; _myid := _myid w; _modified := _modified w;
     _read_only := _read_only w; _repository := _repository w;
     _other_attributes := v |}.

Definition with_workspace (v : gmap string ObjId) (r : Repository) : Repository :=
  {| _workspace := v; _hashed_elements := _hashed_elements r;
     _workspace_root := _workspace_root r; _object_counter := _object_counter r |}.
Definition with_object_counter (v : nat) (r : Repository) : Repository :=
  {| _workspace := _workspace r; _hashed_elements := _hashed_elements r;
     _workspace_root := _workspace_root r; _object_counter := v |}.

(** ** The repository interface

    [ion.core.object.repository] is used by the wrapper through three
    methods; the wrapper code is written against this interface. *)
Class RepositoryMethods := {
  new_id : ObjId → M string;
  get_linked_object : ObjId → ObjId → M ObjId;      (* repo, link *)
  set_linked_object : ObjId → ObjId → ObjId → M unit (* repo, link, value *)
}.

(** Lookup in an association list such as [fields_by_name]. *)
Fixpoint assoc {A} (k : string) (l : list (string * A)) : option A :=
  match l with
  | [] => None
  | (k', v) :: rest => if decide (k' = k) then Some v else assoc k rest
  end.

(** What the protobuf runtime, the generated classes and
    [ion.core.object.object_utils] provide: the descriptors of the message
    classes, SHA-1, and the wire format. *)
Class Runtime := {
  DESCRIPTOR : ClassId → Descriptor;
  sha1bin : string → string;
  message_SerializeToString : gmap ObjId GpbObj → ObjId → option string;
  GPBType_SerializeToString : GPBType → string;
  message_ParseFromString : ObjId → string → gmap ObjId GpbObj → gmap ObjId GpbObj
}.

(** An identity above every object of a heap: parsing creates objects, and
    identities handed out afterwards must differ from theirs. *)
Definition heap_bound {A} (h : gmap ObjId A) : ObjId :=
  map_fold (λ k _ acc, S k `max` acc) 0 h.

Section Model.

Context {runtime : Runtime}.

Definition LinkClassType : GPBType := create_type_identifier 3 1.

(** *** Heap access *)

Definition alloc : M ObjId :=
  λ s, Ok (next_id s) (set_next_id (S (next_id s)) s).

Definition the_wrapper (w : ObjId) : M Wrapper :=
  λ s, match wrappers s !! w with
       | Some x => Ok x s
       | None => Raise AttributeError s
       end.

Definition update_wrapper (w : ObjId) (f : Wrapper → Wrapper) : M unit :=
  modify_state (set_wrappers (alter f w)).

Definition the_repository (r : option ObjId) : M Repository :=
  λ s, match r ≫= (λ r, repos s !! r) with
       | Some x => Ok x s
       | None => Raise AttributeError s
       end.

Definition update_repository (r : option ObjId) (f : Repository → Repository) : M unit :=
  match r with
  | Some r => modify_state (set_repos (alter f r))
  | None => raise AttributeError
  end.

Definition the_message (gpb : option ObjId) : M (ClassId * gmap string FieldVal) :=
  λ s, match gpb ≫= (λ o, gpb_heap s !! o) with
       | Some (GMessage c f) => Ok (c, f) s
       | _ => Raise AttributeError s
       end.

(** *** The protobuf runtime: attribute access on a message *)

Inductive GpbAttr :=
| AScalar (v : Scalar)
| ARepeatedScalar (c : ObjId)
| ARepeatedComposite (c : ObjId)
| AMessage (m : ObjId).

Definition store_field (gpb : ObjId) (name : string) (v : FieldVal) : M unit :=
  modify_state (set_gpb_heap (alter (λ o, match o with
                                          | GMessage c f => GMessage c (<[name:=v]> f)
                                          | o => o
                                          end) gpb)).

Definition new_gpb_object (o : GpbObj) : M ObjId :=
  i ← alloc; modify_state (set_gpb_heap (<[i:=o]>));; mret i.

(** [getattr(gpb, name)]: sub-messages and containers are created on first
    access and then keep their identity. *)
Definition gpb_getattr (gpb : option ObjId) (name : string) : M GpbAttr :=
  '(cls, flds) ← the_message gpb;
  match assoc name (fields_by_name (DESCRIPTOR cls)), gpb with
  | Some decl, Some g =>
      match flds !! name, decl with
      | Some (VScalar v), _ => mret (AScalar v)
      | Some (VObj o), DRepeatedScalar _ => mret (ARepeatedScalar o)
      | Some (VObj o), DRepeatedComposite _ => mret (ARepeatedComposite o)
      | Some (VObj o), _ => mret (AMessage o)
      | None, DScalar d => mret (AScalar d)
      | None, DRepeatedScalar _ =>
          o ← new_gpb_object (GRepeatedScalar []); store_field g name (VObj o);;
          mret (ARepeatedScalar o)
      | None, DRepeatedComposite c =>
          o ← new_gpb_object (GRepeatedComposite c []); store_field g name (VObj o);;
          mret (ARepeatedComposite o)
      | None, DMessage c =>
          o ← new_gpb_object (GMessage c ∅); store_field g name (VObj o);;
          mret (AMessage o)
      end
  | _, _ =>
      match assoc name (enum_values (DESCRIPTOR cls)) with
      | Some z => mret (AScalar (SInt z))
      | None => raise AttributeError
      end
  end.

Definition same_kind (a b : Scalar) : bool :=
  match a, b with
  | SInt _, SInt _ | SStr _, SStr _ | SBool _, SBool _ => true
  | _, _ => false
  end.

(** [setattr(gpb, name, value)]: only scalar fields can be assigned, and
    only with a value of the declared kind. *)
Definition gpb_setattr (gpb : option ObjId) (name : string) (value : PyVal) : M unit :=
  '(cls, flds) ← the_message gpb;
  match assoc name (fields_by_name (DESCRIPTOR cls)), gpb with
  | Some (DScalar d), Some g =>
      match value with
      | PScalar v => if same_kind d v then store_field g name (VScalar v) else raise TypeError
      | _ => raise TypeError
      end
  | _, _ => raise AttributeError
  end.

(** [gpb.ClearField(name)] *)
Definition gpb_ClearField (gpb : option ObjId) (name : string) : M unit :=
  '(cls, flds) ← the_message gpb;
  match assoc name (fields_by_name (DESCRIPTOR cls)), gpb with
  | Some _, Some g =>
      modify_state (set_gpb_heap (alter (λ o, match o with
                                              | GMessage c f => GMessage c (delete name f)
                                              | o => o
                                              end) g))
  | _, _ => raise ValueError
  end.

(** *** [Wrapper.__init__] *)

Definition Wrapper_init (gpbMessage : ObjId) : M ObjId :=
  s ← get_state;
  match gpb_heap s !! gpbMessage with
  | Some (GMessage cls _) =>
      inst ← alloc;
      modify_state (set_wrappers (<[inst :=
        {| _gpbFields := (fields_by_name (DESCRIPTOR cls)).*1 ++ (enum_values (DESCRIPTOR cls)).*1;
           _invalid := false;
           _gpbMessage := Some gpbMessage;
           _GPBClass := cls;
           _gpb_type := type_identifier (DESCRIPTOR cls);
           _root := None; _bytes := None; _parent_links := None; _child_links := None;
           _derived_wrappers := None; _myid := None; _modified := None;
           _read_only := None; _repository := None; _other_attributes := ∅ |}]>));;
      mret inst
  | _ => raise NotAMessageError
  end.

(** *** Properties

    Every property first reads [_invalid] with [object.__getattribute__];
    the graph bookkeeping is kept on the root wrapper.

    Convention: inside the methods, [self.X] for an attribute [X] of the
    wrapper class is that attribute, that is, no field or enum value of a
    wrapped message class is named like an attribute of the wrapper (the
    source leaves such conflicts as a TODO).  The interceptors
    [__getattribute__] and [__setattr__] themselves are modelled in full. *)

Definition check_valid (self : ObjId) : M unit :=
  wr ← the_wrapper self;
  if _invalid wr then raise InvalidatedObjectError else mret tt.

Definition Invalid (self : ObjId) : M bool :=
  wr ← the_wrapper self; mret (_invalid wr).

Definition Root (self : ObjId) : M (option ObjId) :=
  check_valid self;; wr ← the_wrapper self; mret (_root wr).

Definition IsRoot (self : ObjId) : M bool :=
  check_valid self;; wr ← the_wrapper self; mret (bool_decide (_root wr = Some self)).

Definition ObjectClass (self : ObjId) : M ClassId :=
  check_valid self;; wr ← the_wrapper self; mret (_GPBClass wr).

Definition ObjectType (self : ObjId) : M (option GPBType) :=
  check_valid self;; wr ← the_wrapper self; mret (_gpb_type wr).

Definition ParseFromString (self : ObjId) (serialized : string) : M unit :=
  check_valid self;;
  wr ← the_wrapper self;
  the_message (_gpbMessage wr);;
  match _gpbMessage wr with
  | Some g =>
      modify_state (λ s,
        let h := message_ParseFromString g serialized (gpb_heap s) in
        set_next_id (next_id s `max` heap_bound h) (set_gpb_heap (λ _, h) s))
  | None => raise AttributeError
  end.

(** A proxy object parses its serialized value on first use. *)
Definition GPBMessage (self : ObjId) : M (option ObjId) :=
  check_valid self;;
  wr ← the_wrapper self;
  match _bytes wr with
  | Some bytes => ParseFromString self bytes;; update_wrapper self (with_bytes None)
  | None => mret tt
  end;;
  wr ← the_wrapper self; mret (_gpbMessage wr).

Definition root_attribute {A} (attr : Wrapper → A) (self : ObjId) : M A :=
  check_valid self;;
  root ← Root self;
  match root with
  | Some r => rw ← the_wrapper r; mret (attr rw)
  | None => raise AttributeError
  end.

Definition set_root_attribute (upd : Wrapper → Wrapper) (self : ObjId) : M unit :=
  check_valid self;;
  root ← Root self;
  match root with
  | Some r => the_wrapper r;; update_wrapper r upd
  | None => raise AttributeError
  end.

Definition get_Repository := root_attribute _repository.
Definition DerivedWrappers := root_attribute _derived_wrappers.
Definition _get_myid := root_attribute _myid.
Definition _set_myid (self : ObjId) (value : string) := set_root_attribute (with_myid (Some value)) self.
Definition _get_parent_links := root_attribute _parent_links.
Definition _set_parent_links (self : ObjId) (value : gset ObjId) :=
  set_root_attribute (with_parent_links (Some value)) self.
Definition _get_child_links := root_attribute _child_links.
Definition _set_child_links (self : ObjId) (value : gset ObjId) :=
  set_root_attribute (with_child_links (Some value)) self.
Definition _get_readonly := root_attribute _read_only.
Definition _set_readonly (self : ObjId) (value : bool) :=
  set_root_attribute (with_read_only (Some value)) self.
Definition _get_modified := root_attribute _modified.
Definition _set_modified (self : ObjId) (value : bool) :=
  set_root_attribute (with_modified (Some value)) self.

(** Iterating over, or testing membership in, a set or dict attribute
    that is still [None] is a [TypeError]. *)
Definition not_None {A} (o : option A) : M A :=
  match o with
  | Some x => mret x
  | None => raise TypeError
  end.

(** *** Parent links *)

(** [InParents]: is [value] the root of one of the links that lead to
    this object, directly or through their own parents? *)
Fixpoint InParents_loop (InParents : ObjId → M bool) (value : ObjId)
    (items : list ObjId) : M bool :=
  match items with
  | [] => mret false
  | item :: rest =>
      r ← Root item;
      if bool_decide (r = Some value) then mret true
      else
        b ← InParents item;
        if b : bool then mret true else InParents_loop InParents value rest
  end.

Fixpoint InParents (fuel : nat) (self value : ObjId) : M bool :=
  match fuel with
  | 0 => out_of_fuel
  | S fuel =>
      check_valid self;;
      pl ← _get_parent_links self;
      links ← not_None pl;
      InParents_loop (λ item, InParents fuel item value) value (elements links)
  end.

(** The [for ... else] of [AddParentLink]: true when the loop hit [break]. *)
Fixpoint AddParentLink_search (parents : list ObjId) (link : ObjId) : M bool :=
  match parents with
  | [] => mret false
  | parent :: rest =>
      a ← GPBMessage parent;
      b ← GPBMessage link;
      if bool_decide (a = b) then mret true else AddParentLink_search rest link
  end.

Definition AddParentLink (self link : ObjId) : M unit :=
  check_valid self;;
  pl ← _get_parent_links self;
  links ← not_None pl;
  found ← AddParentLink_search (elements links) link;
  if found : bool then mret tt
  else
    pl ← _get_parent_links self;
    match pl with
    | Some links => set_root_attribute (with_parent_links (Some (links ∪ {[link]}))) self
    | None => raise AttributeError
    end.

(** *** [_rewrap]

    One wrapper per protobuf object below a root: the cache
    [DerivedWrappers] is keyed by the hash of the wrapped object. *)
Definition _rewrap (self gpbMessage : ObjId) : M ObjId :=
  check_valid self;;
  dw ← DerivedWrappers self;
  d ← not_None dw;
  match d !! gpbMessage with
  | Some inst => mret inst
  | None =>
      inst ← Wrapper_init gpbMessage;
      wr ← the_wrapper self;
      update_wrapper inst (with_root (_root wr));;
      set_root_attribute (with_derived_wrappers (Some (<[gpbMessage := inst]> d))) self;;
      mret inst
  end.

(** [_rewrap] applied to the result of [getattr]: a scalar is not a message. *)
Definition _rewrap_attr (self : ObjId) (field : GpbAttr) : M ObjId :=
  match field with
  | AScalar _ => check_valid self;; DerivedWrappers self ≫= not_None;; raise NotAMessageError
  | ARepeatedScalar o | ARepeatedComposite o | AMessage o => _rewrap self o
  end.

Definition is_link_type (t : option GPBType) : bool := bool_decide (t = Some LinkClassType).

Definition GetLink (self : ObjId) (linkname : string) : M ObjId :=
  check_valid self;;
  gpb ← GPBMessage self;
  field ← gpb_getattr gpb linkname;
  link ← _rewrap_attr self field;
  t ← ObjectType link;
  if is_link_type t then mret link else raise NotALinkError.

Definition SerializeToString (self : ObjId) : M string :=
  check_valid self;;
  gpb ← GPBMessage self;
  s ← get_state;
  match gpb ≫= message_SerializeToString (gpb_heap s) with
  | Some bytes => mret bytes
  | None => match gpb with Some _ => raise EncodeError | None => raise AttributeError end
  end.

(** *** The repository, as far as the wrapper relies on it *)

(** Modelled from the spec: [Repository.new_id] is missing from the sources.
    "NewLocalId() -> id: monotonically increasing counter scoped to the
    repository instance; ids are transient and never reused". *)
Definition spec_new_id (repo : ObjId) : M string :=
  rp ← the_repository (Some repo);
  update_repository (Some repo) (with_object_counter (S (_object_counter rp)));;
  mret (pretty (S (_object_counter rp))).

(** Modelled from the spec: [Repository.get_linked_object] is missing from
    the sources.  "Resolve(link) -> ObjectWrapper: dereferences a Link's key
    through the workspace or a pluggable backing store; fails with
    UnresolvedLinkError if the key is neither in the workspace nor the
    backing store".  The backing store is the parameter [backing_store]. *)
Definition spec_get_linked_object (backing_store : ObjId → string → M ObjId)
    (repo link : ObjId) : M ObjId :=
  gpb ← GPBMessage link;
  field ← gpb_getattr gpb "key";
  match field with
  | AScalar (SStr key) =>
      rp ← the_repository (Some repo);
      match _workspace rp !! key with
      | Some obj => mret obj
      | None => backing_store repo key
      end
  | _ => raise (RepositoryError "UnresolvedLinkError")
  end.

(** A backing store that holds nothing. *)
Definition empty_backing_store (repo : ObjId) (key : string) : M ObjId :=
  raise (RepositoryError "UnresolvedLinkError").

(** Modelled from the spec: [Repository.set_linked_object] is missing from
    the sources.  "registers value as a child (adds this Link to value's
    parent_links, adds value's resolving Link to this root's child_links),
    fails with CyclicReferenceError if value already contains this wrapper's
    root as an ancestor"; "surfaced before any mutation occurs (check
    precedes write)".  The check is the wrapper's own [InParents]; the link
    then carries the key and the type of the value (section 3, Link). *)
Definition spec_set_linked_object (fuel : nat) (repo link value : ObjId) : M unit :=
  cyclic ← InParents fuel link value;
  if cyclic : bool then raise (RepositoryError "CyclicReferenceError")
  else
    AddParentLink value link;;
    cl ← _get_child_links link;
    links ← not_None cl;
    set_root_attribute (with_child_links (Some (links ∪ {[link]}))) link;;
    myid ← _get_myid value;
    gpb ← GPBMessage link;
    gpb_setattr gpb "key" (match myid with Some k => PScalar (SStr k) | None => PNone end);;
    t ← ObjectType value;
    tp ← gpb_getattr gpb "type";
    match tp, t with
    | AMessage m, Some ty =>
        gpb_setattr (Some m) "object_id" (PScalar (SInt (object_id ty)));;
        gpb_setattr (Some m) "version" (PScalar (SInt (version ty)))
    | _, _ => raise AttributeError
    end.

(** Modelled from the spec: [Repository.create_object] is missing from the
    sources.  "CreateObject(type) -> ObjectWrapper: wraps a fresh TypedRecord,
    registers it in workspace under a new local id"; "builds a fresh root
    wrapper, modified=true, assigned a fresh local id". *)
Definition spec_create_object (repo : ObjId) (cls : ClassId) : M ObjId :=
  gpb ← new_gpb_object (GMessage cls ∅);
  obj ← Wrapper_init gpb;
  obj_id ← spec_new_id repo;
  update_wrapper obj (λ w,
    with_repository (Some repo) (with_root (Some obj) (with_parent_links (Some ∅)
      (with_child_links (Some ∅) (with_read_only (Some false) (with_myid (Some obj_id)
        (with_modified (Some true) (with_derived_wrappers (Some ∅) w))))))));;
  update_repository (Some repo) (λ rp, with_workspace (<[obj_id := obj]> (_workspace rp)) rp);;
  mret obj.

Definition spec_repository (fuel : nat) (backing_store : ObjId → string → M ObjId)
  : RepositoryMethods :=
  {| new_id := spec_new_id;
     get_linked_object := spec_get_linked_object backing_store;
     set_linked_object := spec_set_linked_object fuel |}.

(** *** Methods that call into the repository *)

Context {repository : RepositoryMethods}.

Definition call_new_id (repo : option ObjId) : M string :=
  the_repository repo;;
  match repo with Some r => new_id r | None => raise AttributeError end.

Definition call_get_linked_object (repo : option ObjId) (link : ObjId) : M ObjId :=
  the_repository repo;;
  match repo with Some r => get_linked_object r link | None => raise AttributeError end.

Definition call_set_linked_object (repo : option ObjId) (link value : ObjId) : M unit :=
  the_repository repo;;
  match repo with Some r => set_linked_object r link value | None => raise AttributeError end.

(** [_set_parents_modified]: recursively change an object and its parents
    to the modified state; the links to it are reset to its new id. *)
Fixpoint _set_parents_modified (fuel : nat) (self : ObjId) : M unit :=
  match fuel with
  | 0 => out_of_fuel
  | S fuel =>
      check_valid self;;
      modified ← _get_modified self;
      if truthy modified then mret tt
      else
        _set_modified self true;;
        repo ← get_Repository self;
        new ← call_new_id repo;
        root ← Root self;
        match root with
        | Some r => update_repository repo (λ rp, with_workspace (<[new := r]> (_workspace rp)) rp)
        | None => raise AttributeError
        end;;
        rp ← the_repository repo;
        myid ← _get_myid self;
        match myid ≫= (λ k, _workspace rp !! k ≫= (λ _, Some k)) with
        | Some k => update_repository repo (λ rp, with_workspace (delete k (_workspace rp)) rp)
        | None => mret tt
        end;;
        _set_myid self new;;
        root ← Root self;
        rp ← the_repository repo;
        if bool_decide (root = _workspace_root rp) then
          (* the commit is no longer really your parent *)
          _set_parent_links self ∅
        else
          pl ← _get_parent_links self;
          links ← not_None pl;
          for_each (elements links) (λ link,
            myid ← _get_myid self;
            gpb ← GPBMessage link;
            gpb_setattr gpb "key" (match myid with Some k => PScalar (SStr k) | None => PNone end);;
            _set_parents_modified fuel link)
  end.

Definition SetLink (fuel : nat) (self value : ObjId) : M unit :=
  check_valid self;;
  t ← ObjectType self;
  if negb (is_link_type t) then raise NotALinkError
  else
    repo ← get_Repository self;
    call_set_linked_object repo self value;;
    modified ← _get_modified self;
    if truthy modified then mret tt else _set_parents_modified fuel self.

Definition SetLinkByName (fuel : nat) (self : ObjId) (linkname : string) (value : ObjId) : M unit :=
  check_valid self;;
  link ← GetLink self linkname;
  SetLink fuel link value.

(** *** Container wrappers: construction and invalidation *)

Definition the_container_wrapper (c : ObjId) : M ContainerWrapperObj :=
  λ s, match cwrappers s !! c with
       | Some x => Ok x s
       | None => Raise AttributeError s
       end.

(** [ContainerWrapper.Invalid] and [ScalarContainerWrapper.Invalid] *)
Definition cw_Invalid (self : ObjId) : M bool :=
  cw ← the_container_wrapper self;
  match cw_wrapper cw with
  | None => mret true
  | Some w => wr ← the_wrapper w; mret (_invalid wr)
  end.

(** [ContainerWrapper.Invalidate] and [ScalarContainerWrapper.Invalidate] *)
Definition cw_Invalidate (self : ObjId) : M unit :=
  cw ← the_container_wrapper self;
  modify_state (set_cwrappers (<[self := {| cw_scalar := cw_scalar cw; cw_wrapper := None;
                                            cw_gpbcontainer := None; cw_Repository := None |}]>)).

Definition is_container (scalar : bool) (o : option GpbObj) : bool :=
  match o with
  | Some (GRepeatedScalar _) => scalar
  | Some (GRepeatedComposite _ _) => negb scalar
  | _ => false
  end.

(** The shared body of the two [factory] class methods. *)
Definition container_factory (scalar : bool) (wrapper gpbcontainer : ObjId) : M ObjId :=
  dw ← root_attribute _derived_wrappers wrapper;
  match dw with
  | None => raise AttributeError
  | Some d =>
      match d !! gpbcontainer with
      | Some inst => mret inst
      | None =>
          s ← get_state;
          if is_container scalar (gpb_heap s !! gpbcontainer) then
            repo ← get_Repository wrapper;
            inst ← alloc;
            modify_state (set_cwrappers (<[inst := {| cw_scalar := scalar;
                                                      cw_wrapper := Some wrapper;
                                                      cw_gpbcontainer := Some gpbcontainer;
                                                      cw_Repository := repo |}]>));;
            set_root_attribute (with_derived_wrappers (Some (<[gpbcontainer := inst]> d))) wrapper;;
            mret inst
          else raise NotAMessageError
      end
  end.

Definition ContainerWrapper_factory (wrapper gpbcontainer : ObjId) : M ObjId :=
  check_valid wrapper;; container_factory false wrapper gpbcontainer.

Definition ScalarContainerWrapper_factory (wrapper gpbcontainer : ObjId) : M ObjId :=
  container_factory true wrapper gpbcontainer.

(** *** Attribute interception *)

Definition PBool (b : bool) : PyVal := PScalar (SBool b).
Definition PStr (s : string) : PyVal := PScalar (SStr s).
Definition of_option {A} (f : A → PyVal) (o : option A) : PyVal :=
  match o with Some x => f x | None => PNone end.

Definition method_names : list string :=
  ["Invalidate"; "SetLink"; "SetLinkByName"; "GetLink"; "InParents"; "SetStructureReadOnly";
   "SetStructureReadWrite"; "RecurseCommit"; "FindChildLinks"; "AddParentLink"; "_rewrap";
   "_set_parents_modified"; "Debug"; "IsInitialized"; "SerializeToString"; "ParseFromString";
   "ListSetFields"; "IsFieldSet"; "HasField"; "ClearField"; "_clear_derived_message"; "ByteSize";
   "_get_myid"; "_set_myid"; "_get_parent_links"; "_set_parent_links"; "_get_child_links";
   "_set_child_links"; "_get_readonly"; "_set_readonly"; "_get_modified"; "_set_modified"].

(** The properties of the class, which take precedence over the instance. *)
Definition properties : list (string * (ObjId → M PyVal)) :=
  [("Invalid", λ self, PBool <$> Invalid self);
   ("ObjectClass", λ self, PClass <$> ObjectClass self);
   ("DESCRIPTOR", λ self, check_valid self;; wr ← the_wrapper self;
                          '(cls, _) ← the_message (_gpbMessage wr); mret (PClass cls));
   ("Root", λ self, of_option PObj <$> Root self);
   ("IsRoot", λ self, PBool <$> IsRoot self);
   ("ObjectType", λ self, of_option PType <$> ObjectType self);
   ("GPBMessage", λ self, of_option PObj <$> GPBMessage self);
   ("Repository", λ self, of_option PObj <$> get_Repository self);
   ("DerivedWrappers", λ self, of_option PDict <$> DerivedWrappers self);
   ("MyId", λ self, of_option PStr <$> _get_myid self);
   ("ParentLinks", λ self, of_option PSet <$> _get_parent_links self);
   ("ChildLinks", λ self, of_option PSet <$> _get_child_links self);
   ("ReadOnly", λ self, of_option PBool <$> _get_readonly self);
   ("Modified", λ self, of_option PBool <$> _get_modified self)].

(** The attributes every instance gets in [__init__]. *)
Definition instance_attributes : list (string * (Wrapper → PyVal)) :=
  [("_gpbFields", λ w, PNames (_gpbFields w));
   ("_invalid", λ w, PBool (_invalid w));
   ("_gpbMessage", λ w, of_option PObj (_gpbMessage w));
   ("_GPBClass", λ w, PClass (_GPBClass w));
   ("_gpb_type", λ w, of_option PType (_gpb_type w));
   ("_root", λ w, of_option PObj (_root w));
   ("_bytes", λ w, of_option PStr (_bytes w));
   ("_parent_links", λ w, of_option PSet (_parent_links w));
   ("_child_links", λ w, of_option PSet (_child_links w));
   ("_derived_wrappers", λ w, of_option PDict (_derived_wrappers w));
   ("_myid", λ w, of_option PStr (_myid w));
   ("_modified", λ w, of_option PBool (_modified w));
   ("_read_only", λ w, of_option PBool (_read_only w));
   ("_repository", λ w, of_option PObj (_repository w))].

(** [object.__getattribute__(self, key)] *)
Definition object_getattribute (self : ObjId) (key : string) : M PyVal :=
  match assoc key properties with
  | Some prop => prop self
  | None =>
      wr ← the_wrapper self;
      match assoc key instance_attributes, _other_attributes wr !! key with
      | Some attr, _ => mret (attr wr)
      | None, Some v => mret v
      | None, None =>
          if bool_decide (key ∈ method_names) then mret (PMethod key)
          else if bool_decide (key = "LinkClassType") then mret (PType LinkClassType)
          else raise AttributeError
      end
  end.

(** [Wrapper.__getattribute__] *)
Definition __getattribute__ (self : ObjId) (key : string) : M PyVal :=
  wr ← the_wrapper self;
  if _invalid wr then
    if bool_decide (key = "Invalid") then mret (PBool true)
    else raise InvalidatedObjectError
  else if bool_decide (key ∈ _gpbFields wr) then
    gpb ← GPBMessage self;
    field ← gpb_getattr gpb key;
    match field with
    | ARepeatedScalar c => PObj <$> ScalarContainerWrapper_factory self c
    | ARepeatedComposite c => PObj <$> ContainerWrapper_factory self c
    | AMessage m =>
        result ← _rewrap self m;
        t ← ObjectType result;
        if is_link_type t then
          repo ← get_Repository self;
          PObj <$> call_get_linked_object repo result
        else mret (PObj result)
    | AScalar v => mret (PScalar v)
    end
  else
    try_except (object_getattribute self key) AttributeError (raise NoAttributeError).

(** Plain assignment of an instance attribute.  The typed attributes accept
    the values their Python counterparts hold in this code ([None] or a
    value of the attribute's kind); [None] stands for an absent value. *)
Definition instance_setters : list (string * (PyVal → option (Wrapper → Wrapper))) :=
  [("_gpbFields", λ v, match v with PNames l => Some (with_gpbFields l) | _ => None end);
   ("_invalid", λ v, match v with PScalar (SBool b) => Some (with_invalid b) | _ => None end);
   ("_gpbMessage", λ v, match v with PNone => Some (with_gpbMessage None)
                                   | PObj o => Some (with_gpbMessage (Some o)) | _ => None end);
   ("_root", λ v, match v with PNone => Some (with_root None)
                             | PObj o => Some (with_root (Some o)) | _ => None end);
   ("_bytes", λ v, match v with PNone => Some (with_bytes None)
                              | PScalar (SStr b) => Some (with_bytes (Some b)) | _ => None end);
   ("_parent_links", λ v, match v with PNone => Some (with_parent_links None)
                                     | PSet x => Some (with_parent_links (Some x)) | _ => None end);
   ("_child_links", λ v, match v with PNone => Some (with_child_links None)
                                    | PSet x => Some (with_child_links (Some x)) | _ => None end);
   ("_derived_wrappers", λ v, match v with PNone => Some (with_derived_wrappers None)
                                         | PDict d => Some (with_derived_wrappers (Some d))
                                         | _ => None end);
   ("_myid", λ v, match v with PNone => Some (with_myid None)
                             | PScalar (SStr k) => Some (with_myid (Some k)) | _ => None end);
   ("_modified", λ v, match v with PNone => Some (with_modified None)
                                 | PScalar (SBool b) => Some (with_modified (Some b)) | _ => None end);
   ("_read_only", λ v, match v with PNone => Some (with_read_only None)
                                  | PScalar (SBool b) => Some (with_read_only (Some b)) | _ => None end);
   ("_repository", λ v, match v with PNone => Some (with_repository None)
                                   | PObj o => Some (with_repository (Some o)) | _ => None end)].

(** The property setters, with their assertions. *)
Definition property_setters : list (string * (ObjId → PyVal → M unit)) :=
  [("MyId", λ self v, check_valid self;;
                      match v with PScalar (SStr k) => _set_myid self k | _ => raise AssertionError end);
   ("ParentLinks", λ self v, match v with PSet x => _set_parent_links self x
                                        | PNone => set_root_attribute (with_parent_links None) self
                                        | _ => raise TypeError end);
   ("ChildLinks", λ self v, match v with PSet x => _set_child_links self x
                                       | PNone => set_root_attribute (with_child_links None) self
                                       | _ => raise TypeError end);
   ("ReadOnly", λ self v, check_valid self;;
                          match v with PScalar (SBool b) => _set_readonly self b
                                     | _ => raise AssertionError end);
   ("Modified", λ self v, check_valid self;;
                          match v with PScalar (SBool b) => _set_modified self b
                                     | _ => raise AssertionError end)].

(** [object.__setattr__(self, key, value)] *)
Definition object_setattr (self : ObjId) (key : string) (value : PyVal) : M unit :=
  match assoc key property_setters with
  | Some setter => setter self value
  | None =>
      if bool_decide (key ∈ properties.*1) then raise AttributeError
      else
        wr ← the_wrapper self;
        match assoc key instance_setters with
        | Some decode =>
            match decode value with
            | Some upd => update_wrapper self upd
            | None => raise TypeError
            end
        | None =>
            update_wrapper self (with_other_attributes (<[key := value]> (_other_attributes wr)))
        end
  end.

Definition is_Wrapper (value : PyVal) : M (option ObjId) :=
  s ← get_state;
  mret (match value with
        | PObj o => match wrappers s !! o with Some _ => Some o | None => None end
        | _ => None
        end).

(** [Wrapper.__setattr__] *)
Definition __setattr__ (fuel : nat) (self : ObjId) (key : string) (value : PyVal) : M unit :=
  check_valid self;;
  wr ← the_wrapper self;
  if bool_decide (key ∈ _gpbFields wr) then
    ro ← _get_readonly self;
    if truthy ro then raise ReadOnlyError
    else
      gpb ← GPBMessage self;
      w ← is_Wrapper value;
      match w with
      | Some v =>
          vw ← the_wrapper v;
          if _invalid vw then raise InvalidatedObjectError
          else SetLinkByName fuel self key v
      | None => gpb_setattr gpb key value
      end;;
      _set_parents_modified fuel self
  else
    try_except (object_setattr self key value) AttributeError (raise NoAttributeError).

(** *** [Invalidate] *)

(** [self.name = value] inside a method, for a private attribute. *)
Definition assign (self : ObjId) (upd : Wrapper → Wrapper) : M unit :=
  check_valid self;; update_wrapper self upd.

Fixpoint Invalidate (fuel : nat) (self : ObjId) : M unit :=
  match fuel with
  | 0 => out_of_fuel
  | S fuel =>
      isroot ← IsRoot self;
      (if isroot : bool then
         dw ← DerivedWrappers self;
         match dw with
         | Some d =>
             for_each (map_to_list d).*2 (λ item,
               s ← get_state;
               match wrappers s !! item with
               | Some _ => Invalidate fuel item
               | None => cw_Invalidate item
               end)
         | None => raise AttributeError
         end
       else mret tt);;
      assign self (with_derived_wrappers None);;
      assign self (with_gpbMessage None);;
      assign self (with_parent_links None);;
      assign self (with_child_links None);;
      assign self (with_myid None);;
      assign self (with_repository None);;
      assign self (with_bytes None);;
      assign self (with_root None);;
      update_wrapper self (with_gpbFields []);;
      assign self (with_invalid true)
  end.

(** *** [ClearField] and [_clear_derived_message] *)

(** [del self.DerivedWrappers[objhash]] *)
Definition del_DerivedWrappers (self objhash : ObjId) : M unit :=
  dw ← DerivedWrappers self;
  d ← not_None dw;
  match d !! objhash with
  | Some _ => set_root_attribute (with_derived_wrappers (Some (delete objhash d))) self
  | None => raise KeyError
  end.

Definition container_items (c : ObjId) : M (list ObjId) :=
  λ s, match gpb_heap s !! c with
       | Some (GRepeatedComposite _ items) => Ok items s
       | _ => Raise AttributeError s
       end.

(** [_clear_derived_message], over the [ClearField] it calls back. *)
Definition _clear_derived_message_body (ClearField : ObjId → string → M unit)
    (self : ObjId) : M unit :=
  t ← ObjectType self;
  (if is_link_type t then
     repo ← get_Repository self;
     child_obj ← call_get_linked_object repo self;
     (* remove this link from the list of parents *)
     pl ← root_attribute _parent_links child_obj;
     match pl with
     | Some links =>
         if bool_decide (self ∈ links)
         then set_root_attribute (with_parent_links (Some (links ∖ {[self]}))) child_obj
         else raise KeyError
     | None => raise AttributeError
     end;;
     (* this is the only one, remove it as a child *)
     cl ← _get_child_links self;
     match cl with
     | Some links =>
         if bool_decide (self ∈ links)
         then set_root_attribute (with_child_links (Some (links ∖ {[self]}))) self
         else raise KeyError
     | None => raise AttributeError
     end
   else mret tt);;
  check_valid self;;
  wr ← the_wrapper self;
  '(cls, _) ← the_message (_gpbMessage wr);
  for_each (fields_by_name (DESCRIPTOR cls)).*1 (ClearField self).

Fixpoint ClearField (fuel : nat) (self : ObjId) (field_name : string) : M unit :=
  match fuel with
  | 0 => out_of_fuel
  | S fuel =>
      check_valid self;;
      gpb ← GPBMessage self;
      field ← try_except (gpb_getattr gpb field_name) AttributeError
                (ObjectClass self;; raise NoSuchFieldError);
      match field with
      | ARepeatedScalar c =>
          (* nothing to do, just clear the field: it can not contain a link *)
          del_DerivedWrappers self c
      | ARepeatedComposite c =>
          items ← container_items c;
          for_each items (λ item,
            wrapped_field ← _rewrap self item;
            _clear_derived_message_body (ClearField fuel) wrapped_field;;
            del_DerivedWrappers self item);;
          del_DerivedWrappers self c
      | AMessage m =>
          wrapped_field ← _rewrap self m;
          _clear_derived_message_body (ClearField fuel) wrapped_field;;
          del_DerivedWrappers self m
      | AScalar _ => mret tt
      end;;
      (* now clear the field *)
      gpb ← GPBMessage self;
      gpb_ClearField gpb field_name;;
      (* set this object and its parents to be modified *)
      _set_parents_modified fuel self
  end.

Definition _clear_derived_message (fuel : nat) (self : ObjId) : M unit :=
  _clear_derived_message_body (ClearField fuel) self.

(** *** [StructureElement.sha1] and [RecurseCommit] *)

(** The sha1 of the content and the type: the sha is taken twice so that
    long strings need not be concatenated. *)
Definition sha1 (se : StructureElement) : string :=
  sha1bin (sha1bin (se_value se) +:+ GPBType_SerializeToString (se_type se)).

(** The key of a link as read through the wrapper. *)
Definition link_key (link : ObjId) : M string :=
  v ← __getattribute__ link "key";
  match v with
  | PScalar (SStr k) => mret k
  | _ => raise TypeError
  end.

(** One round of the loop over [ChildLinks]; [keys] is [se.ChildLinks]. *)
Definition commit_child_link (fuel : nat)
    (RecurseCommit : ObjId → gmap string StructureElement → M (gmap string StructureElement))
    (repo : option ObjId) (link : ObjId)
    (acc : gset string * gmap string StructureElement)
  : M (gset string * gmap string StructureElement) :=
  let '(keys, structure) := acc in
  rp ← the_repository repo;
  key ← link_key link;
  structure ←
    match _hashed_elements rp !! key with
    | Some child_se =>
        (* already serialized: set the link's is-leaf property *)
        __setattr__ fuel link "isleaf" (PBool (se_isleaf child_se));;
        mret structure
    | None =>
        child ← call_get_linked_object repo link;
        cl ← root_attribute _child_links child;
        links ← not_None cl;
        __setattr__ fuel link "isleaf" (PBool (bool_decide (size links = 0)));;
        RecurseCommit child structure
    end;
  (* save the link info as a convenience for sending *)
  key ← link_key link;
  mret (keys ∪ {[key]}, structure).

Fixpoint fold_links {A} (links : list ObjId) (body : ObjId → A → M A) (acc : A) : M A :=
  match links with
  | [] => mret acc
  | link :: rest => acc ← body link acc; fold_links rest body acc
  end.

Fixpoint RecurseCommit (fuel : nat) (self : ObjId) (structure : gmap string StructureElement)
  : M (gmap string StructureElement) :=
  match fuel with
  | 0 => out_of_fuel
  | S fuel =>
      check_valid self;;
      modified ← _get_modified self;
      if negb (truthy modified) then
        (* this object is already committed *)
        mret structure
      else
        repo ← get_Repository self;
        cl ← _get_child_links self;
        links ← not_None cl;
        '(keys, structure) ←
          fold_links (elements links) (commit_child_link fuel (RecurseCommit fuel) repo)
                     (∅, structure);
        value ← SerializeToString self;
        t ← ObjectType self;
        match t with
        | None => raise AttributeError
        | Some obj_type =>
            cl ← _get_child_links self;
            links ← not_None cl;
            let se0 := {| se_key := ""; se_type := obj_type; se_isleaf := false;
                          se_value := value; se_ChildLinks := keys |} in
            let se := {| se_key := sha1 se0; se_type := obj_type;
                         se_isleaf := bool_decide (size links = 0);
                         se_value := value; se_ChildLinks := keys |} in
            rp ← the_repository repo;
            myid ← _get_myid self;
            match myid ≫= (λ k, _workspace rp !! k ≫= (λ _, Some k)) with
            | Some k =>
                update_repository repo
                  (λ rp, with_workspace (<[se_key se := self]> (delete k (_workspace rp))) rp)
            | None => mret tt
            end;;
            _set_myid self (se_key se);;
            _set_modified self false;;
            (* set the key value for parent links *)
            pl ← _get_parent_links self;
            plinks ← not_None pl;
            for_each (elements plinks) (λ link,
              myid ← _get_myid self;
              __setattr__ fuel link "key" (of_option PStr myid));;
            mret (<[se_key se := se]> structure)
        end
  end.

(** *** [ContainerWrapper]: repeated composite fields *)

(** Python indexing of a list: negative keys count from the end. *)
Definition py_index (len : nat) (key : Z) : option nat :=
  let n := Z.of_nat len in
  if bool_decide (0 ≤ key < n)%Z then Some (Z.to_nat key)
  else if bool_decide (- n ≤ key < 0)%Z then Some (Z.to_nat (n + key))
  else None.

(** [self._gpbcontainer.__getitem__(key)] *)
Definition gpbcontainer_getitem (c : option ObjId) (key : Z) : M ObjId :=
  match c with
  | Some c =>
      items ← container_items c;
      match py_index (length items) key ≫= (λ i, items !! i) with
      | Some item => mret item
      | None => raise IndexError
      end
  | None => raise AttributeError
  end.

Definition cw_check_valid (self : ObjId) : M unit :=
  inv ← cw_Invalid self;
  if inv : bool then raise InvalidatedObjectError else mret tt.

(** The [_wrapper] of a container wrapper that passed the validity test. *)
Definition cw_the_wrapper (self : ObjId) : M ObjId :=
  cw ← the_container_wrapper self;
  match cw_wrapper cw with
  | Some w => mret w
  | None => raise AttributeError
  end.

(** [ContainerWrapper.SetLink]; [__setitem__] has the same body. *)
Definition ContainerWrapper_SetLink (fuel : nat) (self : ObjId) (key : Z) (value : PyVal) : M unit :=
  cw_check_valid self;;
  v ← is_Wrapper value;
  match v with
  | None => raise IllegalValueError
  | Some value =>
      cw ← the_container_wrapper self;
      item ← gpbcontainer_getitem (cw_gpbcontainer cw) key;
      w ← cw_the_wrapper self;
      item ← _rewrap w item;
      t ← ObjectType item;
      (if is_link_type t then call_set_linked_object (cw_Repository cw) item value
       else raise IllegalValueError);;
      _set_parents_modified fuel w
  end.

Definition ContainerWrapper___setitem__ := ContainerWrapper_SetLink.

Definition ContainerWrapper___getitem__ (self : ObjId) (key : Z) : M ObjId :=
  cw_check_valid self;;
  cw ← the_container_wrapper self;
  value ← gpbcontainer_getitem (cw_gpbcontainer cw) key;
  w ← cw_the_wrapper self;
  value ← _rewrap w value;
  t ← ObjectType value;
  if is_link_type t then call_get_linked_object (cw_Repository cw) value
  else mret value.

Definition ContainerWrapper_GetLink (self : ObjId) (key : Z) : M ObjId :=
  cw_check_valid self;;
  cw ← the_container_wrapper self;
  link ← gpbcontainer_getitem (cw_gpbcontainer cw) key;
  w ← cw_the_wrapper self;
  link ← _rewrap w link;
  t ← ObjectType link;
  (* the message of the failing assertion names an undefined variable *)
  if is_link_type t then mret link else raise NameError.

Definition ContainerWrapper___len__ (self : ObjId) : M nat :=
  cw_check_valid self;;
  cw ← the_container_wrapper self;
  match cw_gpbcontainer cw with
  | Some c => items ← container_items c; mret (length items)
  | None => raise AttributeError
  end.

Definition ContainerWrapper_add (fuel : nat) (self : ObjId) : M ObjId :=
  cw_check_valid self;;
  cw ← the_container_wrapper self;
  s ← get_state;
  match cw_gpbcontainer cw ≫= (λ c, gpb_heap s !! c), cw_gpbcontainer cw with
  | Some (GRepeatedComposite cls items), Some c =>
      new_element ← new_gpb_object (GMessage cls ∅);
      modify_state (set_gpb_heap (<[c := GRepeatedComposite cls (items ++ [new_element])]>));;
      w ← cw_the_wrapper self;
      _set_parents_modified fuel w;;
      _rewrap w new_element
  | _, _ => raise AttributeError
  end.

Definition ContainerWrapper___delitem__ (fuel : nat) (self : ObjId) (key : Z) : M unit :=
  cw_check_valid self;;
  w ← cw_the_wrapper self;
  _set_parents_modified fuel w;;
  cw ← the_container_wrapper self;
  item ← gpbcontainer_getitem (cw_gpbcontainer cw) key;
  w ← cw_the_wrapper self;
  item ← _rewrap w item;
  _clear_derived_message fuel item;;
  cw ← the_container_wrapper self;
  s ← get_state;
  match cw_gpbcontainer cw ≫= (λ c, gpb_heap s !! c), cw_gpbcontainer cw with
  | Some (GRepeatedComposite cls items), Some c =>
      match py_index (length items) key with
      | Some i => modify_state (set_gpb_heap (<[c := GRepeatedComposite cls (delete i items)]>))
      | None => raise IndexError
      end
  | _, _ => raise AttributeError
  end.

End Model.

(** * The AIS metadata cache ([metadata_cache.py]) *)

Module MetadataCache.

(** Keys of a metadata row. *)
Definition TYPE := "type".
Definition DSET := "dset".
Definition DSOURCE := "dsource".
Definition TITLE := "title".
Definition LAT_MIN := "ion_geospatial_lat_min".
Definition REGISTRATION_TIME := "registration_datetime_millis".
Definition PROPERTY := "property".
Definition REQUEST_TYPE := "request_type".
Definition STATION_ID := "station_id".
Definition BASE_URL := "base_url".
Definition MAX_INGEST_MILLIS := "max_ingest_millis".
Definition ION_TITLE := "ion_title".
Definition LCS := "lcs".
Definition UPDATE_INTERVAL_SECONDS := "update_interval_seconds".
Definition VISUALIZATION_URL := "visualization_url".
Definition VISIBILITY := "visibility".

Inductive Value :=
| VNone
| VStr (s : string)
| VInt (z : Z)
| VBool (b : bool)
| VDecimal (digits : string)     (* Decimal(str(x)) *)
| VResource (o : ObjId).         (* a data set or data source instance *)

Global Instance Value_eq_dec : EqDecision Value.
Proof. solve_decision. Defined.

(** A data set or data source resource, with the attributes the cache reads. *)
Record Resource := {
  ResourceIdentity : string;
  ResourceLifeCycleState : string;
  ACTIVE : string;
  persistent : bool;                          (* Repository.persistent *)
  root_group_attributes : list (string * Value);   (* name, GetValue() *)
  property : list Value;
  station_id : list Value;
  registration_datetime_millis : Value;
  request_type : Value;
  base_url : Value;
  max_ingest_millis : Value;
  ion_title : Value;
  update_interval_seconds : Value;
  visualization_url : Value;
  is_public : Value
}.

Definition with_persistent (b : bool) (r : Resource) : Resource :=
  {| ResourceIdentity := ResourceIdentity r; ResourceLifeCycleState := ResourceLifeCycleState r;
     ACTIVE := ACTIVE r; persistent := b; root_group_attributes := root_group_attributes r;
     property := property r; station_id := station_id r;
     registration_datetime_millis := registration_datetime_millis r;
     request_type := request_type r; base_url := base_url r;
     max_ingest_millis := max_ingest_millis r; ion_title := ion_title r;
     update_interval_seconds := update_interval_seconds r;
     visualization_url := visualization_url r; is_public := is_public r |}.

(** The attributes [__init__] gives each instance; the clients and the
    lock are not part of the cache state. *)
Record Instance := { numDSets : Z; numDSources : Z }.

(** The interpreter state: the class attribute [__metadata], declared in the
    class body and never assigned through [self], the instances, and the
    resource objects. *)
Record World := {
  __metadata : gmap string (gmap string Value);
  instances : gmap ObjId Instance;
  resources : gmap ObjId Resource
}.

Definition set_metadata (f : gmap string (gmap string Value) → gmap string (gmap string Value))
    (w : World) : World :=
  {| __metadata := f (__metadata w); instances := instances w; resources := resources w |}.
Definition set_instances (f : gmap ObjId Instance → gmap ObjId Instance) (w : World) : World :=
  {| __metadata := __metadata w; instances := f (instances w); resources := resources w |}.
Definition set_resources (f : gmap ObjId Resource → gmap ObjId Resource) (w : World) : World :=
  {| __metadata := __metadata w; instances := instances w; resources := f (resources w) |}.

(** [MetadataCache(ais)] *)
Definition __init__ (self : ObjId) (w : World) : World :=
  set_instances (<[self := {| numDSets := 0; numDSources := 0 |}]>) w.


Definition getNumDatasources (self : ObjId) (w : World) : option Z :=
  numDSources <$> instances w !! self.

(** [self.__metadata]: the instance has no such attribute, so the lookup
    ends at the class. *)
Definition self___metadata (self : ObjId) (w : World) : gmap string (gmap string Value) :=
  __metadata w.



Definition getDSourceMetadata (self : ObjId) (dSourceID : string) (w : World)
  : option (gmap string Value) :=
  self___metadata self w !! dSourceID.

Definition update_instance (self : ObjId) (f : Instance → Instance) (w : World) : World :=
  set_instances (alter f self) w.

(** The body shared by [deleteDSetMetadata] and [deleteDSourceMetadata]:
    [kind] is [DSET] or [DSOURCE]. *)
Definition delete_metadata (kind : string) (count : Instance → Instance)
    (self : ObjId) (id : string) (w : World) : bool * World :=
  match self___metadata self w !! id ≫= (λ row, row !! kind) with
  | Some (VResource d) =>
      let w := set_resources (alter (with_persistent false) d) w in
      let w := set_metadata (delete id) w in
      (true, update_instance self count w)
  | _ => (false, w)
  end.

Definition deleteDSetMetadata :=
  delete_metadata DSET (λ i, {| numDSets := numDSets i - 1; numDSources := numDSources i |}).

Definition deleteDSourceMetadata :=
  delete_metadata DSOURCE (λ i, {| numDSets := numDSets i; numDSources := numDSources i - 1 |}).

Section Loading.

(** The remote lookups of the association service. *)
Context (getAssociatedSource : string → Value).
Context (getAssociatedOwner : string → Value).
(** [rc.get_instance]: [None] stands for [ResourceClientError]. *)
Context (get_instance : string → option ObjId).




Definition __loadDSourceMetadata (self dSource : ObjId) (w : World) : World :=
  match resources w !! dSource with
  | Some r =>
      if decide (ResourceLifeCycleState r = ACTIVE r) then
        let w := update_instance self
                   (λ i, {| numDSets := numDSets i; numDSources := numDSources i + 1 |}) w in
        let w := set_resources (alter (with_persistent true) dSource) w in
        let row : gmap string Value :=
          <[DSOURCE := VResource dSource]> (<[TYPE := VStr DSOURCE]> ∅) in
        let row := foldl (λ row p, <[PROPERTY := p]> row) row (property r) in
        let row := foldl (λ row sid, <[STATION_ID := sid]> row) row (station_id r) in
        let row :=
          <[VISIBILITY := is_public r]>
          (<[VISUALIZATION_URL := visualization_url r]>
          (<[LCS := VStr (ResourceLifeCycleState r)]>
          (<[UPDATE_INTERVAL_SECONDS := update_interval_seconds r]>
          (<[ION_TITLE := ion_title r]>
          (<[MAX_INGEST_MILLIS := max_ingest_millis r]>
          (<[BASE_URL := base_url r]>
          (<[REQUEST_TYPE := request_type r]>
          (<[REGISTRATION_TIME := registration_datetime_millis r]> row)))))))) in
        set_metadata (<[ResourceIdentity r := row]>) w
      else w
  | None => w
  end.


Definition putDSourceMetadata (self : ObjId) (dSourceID : string) (w : World) : World :=
  match get_instance dSourceID with
  | Some dSource => __loadDSourceMetadata self dSource w
  | None => w
  end.

End Loading.

End MetadataCache.

(** * An address book

    The message classes of the tests ([net.ooici.play.addressbook]) and a
    small runtime, used to run the model on concrete objects. *)

Module AddressBook.

Definition GPBTypeClass : ClassId := 0.
Definition LinkClass : ClassId := 1.
Definition PersonClass : ClassId := 2.
Definition PhoneNumberClass : ClassId := 3.
Definition AddressLinkClass : ClassId := 4.

Definition descriptors (c : ClassId) : Descriptor :=
  match c with
  | 0 => {| fields_by_name := [("object_id", DScalar (SInt 0)); ("version", DScalar (SInt 0))];
            enum_values := []; type_identifier := None |}
  | 1 => {| fields_by_name := [("key", DScalar (SStr "")); ("type", DMessage GPBTypeClass);
                               ("isleaf", DScalar (SBool false))];
            enum_values := []; type_identifier := Some (create_type_identifier 3 1) |}
  | 2 => {| fields_by_name := [("name", DScalar (SStr "")); ("id", DScalar (SInt 0));
                               ("email", DScalar (SStr ""));
                               ("phone", DRepeatedComposite PhoneNumberClass);
                               ("nickname", DRepeatedScalar (SStr ""))];
            enum_values := [("MOBILE", 0%Z); ("HOME", 1%Z); ("WORK", 2%Z)];
            type_identifier := Some (create_type_identifier 20001 1) |}
  | 3 => {| fields_by_name := [("number", DScalar (SStr "")); ("type", DScalar (SInt 0))];
            enum_values := []; type_identifier := None |}
  | _ => {| fields_by_name := [("title", DScalar (SStr "")); ("owner", DMessage LinkClass);
                               ("person", DRepeatedComposite LinkClass)];
            enum_values := []; type_identifier := Some (create_type_identifier 20003 1) |}
  end.

Definition show_scalar (v : Scalar) : string :=
  match v with
  | SInt z => pretty z
  | SStr s => s
  | SBool b => if b then "T" else "F"
  end.

(** A readable stand-in for the wire format. *)
Fixpoint serialize (depth : nat) (h : gmap ObjId GpbObj) (o : ObjId) : string :=
  match depth with
  | 0 => ""
  | S depth =>
      match h !! o with
      | Some (GMessage c flds) =>
          "{" +:+ foldr (λ '(k, v) acc,
                           k +:+ "=" +:+ match v with
                                         | VScalar x => show_scalar x
                                         | VObj o' => serialize depth h o'
                                         end +:+ ";" +:+ acc) "}" (map_to_list flds)
      | Some (GRepeatedScalar vs) =>
          "[" +:+ foldr (λ v acc, show_scalar v +:+ "," +:+ acc) "]" vs
      | Some (GRepeatedComposite _ items) =>
          "[" +:+ foldr (λ v acc, serialize depth h v +:+ "," +:+ acc) "]" items
      | None => ""
      end
  end.

(** A stand-in for SHA-1 that keeps its argument visible. *)
Definition digest (s : string) : string := "sha1(" +:+ s +:+ ")".

#[export] Instance runtime : Runtime :=
  {| DESCRIPTOR := descriptors;
     sha1bin := digest;
     message_SerializeToString := λ h o, Some (serialize 8 h o);
     GPBType_SerializeToString := λ t, pretty (object_id t) +:+ "." +:+ pretty (version t);
     message_ParseFromString := λ _ _ h, h |}.

#[export] Instance repository : RepositoryMethods := spec_repository 8 empty_backing_store.

(** One repository, with identity 0, and nothing in it. *)
Definition empty_state : State :=
  {| gpb_heap := ∅; wrappers := ∅; cwrappers := ∅;
     repos := {[ 0 := {| _workspace := ∅; _hashed_elements := ∅;
                         _workspace_root := None; _object_counter := 0 |} ]};
     next_id := 1 |}.

(** The state a computation ends in, or the start state if it fails. *)
Definition state_after {A} (m : M A) (s : State) : State :=
  match m s with
  | Ok _ s' => s'
  | _ => s
  end.

(** [ab = create(AddressLink); p = create(Person); p.name = 'David';
    p.id = 5; ab.owner = p]: the address book is wrapper 2, the person
    wrapper 4, the link [owner] wrapper 6. *)
Definition ab : ObjId := 2.
Definition p : ObjId := 4.
Definition owner_link : ObjId := 6.

Definition linked : State :=
  state_after (spec_create_object 0 AddressLinkClass;;
               spec_create_object 0 PersonClass;;
               __setattr__ 8 p "name" (PStr "David");;
               __setattr__ 8 p "id" (PScalar (SInt 5));;
               __setattr__ 8 ab "owner" (PObj p)) empty_state.

(** The same objects after [ab.RecurseCommit(structure)]. *)
Definition committed : State := state_after (RecurseCommit 8 ab ∅) linked.

(** The linked objects with a read-only address book: [ab.ReadOnly = True]. *)
Definition frozen : State := state_after (_set_readonly ab true) linked.

(** The linked objects after [p.Invalidate()]. *)
Definition stale : State := state_after (Invalidate 8 p) linked.

End AddressBook.

(** * More of the metadata cache: the objects and the bulk loading *)

Module MetadataCacheLoading.
Import MetadataCache.

(** [getDSet] and [getDSource]: the cached resource object, or [None]
    when the id is not cached or its row has no such entry (both are the
    [KeyError] the method catches). *)
Definition getDSet (self : ObjId) (dSetID : string) (w : World) : option Value :=
  row ← self___metadata self w !! dSetID; row !! DSET.

Definition getDSource (self : ObjId) (dSourceID : string) (w : World) : option Value :=
  row ← self___metadata self w !! dSourceID; row !! DSOURCE.


Section Bulk.
Context (getAssociatedSource : string → Value).
Context (getAssociatedOwner : string → Value).
Context (get_instance : string → option ObjId).


Definition dSourceMetadata (dSource : ObjId) (r : Resource) : gmap string Value :=
  <[VISIBILITY := is_public r]>
  (<[VISUALIZATION_URL := visualization_url r]>
  (<[LCS := VStr (ResourceLifeCycleState r)]>
  (<[UPDATE_INTERVAL_SECONDS := update_interval_seconds r]>
  (<[ION_TITLE := ion_title r]>
  (<[MAX_INGEST_MILLIS := max_ingest_millis r]>
  (<[BASE_URL := base_url r]>
  (<[REQUEST_TYPE := request_type r]>
  (<[REGISTRATION_TIME := registration_datetime_millis r]>
  (foldl (λ row sid, <[STATION_ID := sid]> row)
     (foldl (λ row p, <[PROPERTY := p]> row)
        (<[DSOURCE := VResource dSource]> (<[TYPE := VStr DSOURCE]> ∅))
        (property r))
     (station_id r)))))))))).


Definition loadDataSources (dSourceResults : option (list string)) (self : ObjId) (w : World)
  : bool * World :=
  match dSourceResults with
  | None => (false, w)
  | Some idrefs =>
      (true, foldl (λ w key, putDSourceMetadata get_instance self key w) w idrefs)
  end.

End Bulk.
End MetadataCacheLoading.

(** A cache with one active data set and one active data source, and an
    instance [0] of the cache. *)
Module MetadataExample.
Import MetadataCache.

Definition sst : Resource :=
  {| ResourceIdentity := "sst-1"; ResourceLifeCycleState := "Active"; ACTIVE := "Active";
     persistent := false;
     root_group_attributes := [(TITLE, VStr "Sea surface temperature"); (LAT_MIN, VInt 10)];
     property := []; station_id := [];
     registration_datetime_millis := VNone; request_type := VNone; base_url := VNone;
     max_ingest_millis := VNone; ion_title := VNone; update_interval_seconds := VNone;
     visualization_url := VNone; is_public := VNone |}.

Definition buoy : Resource :=
  {| ResourceIdentity := "buoy-7"; ResourceLifeCycleState := "Active"; ACTIVE := "Active";
     persistent := false;
     root_group_attributes := [];
     property := [VStr "sea_water_temperature"; VStr "salinity"]; station_id := [VStr "41012"];
     registration_datetime_millis := VInt 0; request_type := VInt 1;
     base_url := VStr "http://sdf.ndbc.noaa.gov/sos/server.php";
     max_ingest_millis := VInt 6000; ion_title := VStr "NDBC buoy";
     update_interval_seconds := VInt 3600;
     visualization_url := VStr "http://www.ndbc.noaa.gov"; is_public := VBool true |}.

Definition get_instance (id : string) : option ObjId :=
  if decide (id = "sst-1") then Some 1%nat
  else if decide (id = "buoy-7") then Some 2%nat else None.


Definition world : World :=
  __init__ 0%nat {| __metadata := ∅; instances := ∅;
                    resources := <[1%nat := sst]> (<[2%nat := buoy]> ∅) |}.

End MetadataExample.

(** * More of the wrapper *)

Section MoreWrapper.
Context {runtime : Runtime} {repository : RepositoryMethods}.



End MoreWrapper.

(** The wrappers that exist keep their validity, their root, their
    fields and the flag [_read_only] that [ReadOnly] reads. *)
Definition flags_kept (s s' : State) : Prop :=
  ∀ w, match wrappers s !! w with
       | Some wr => ∃ wr', wrappers s' !! w = Some wr' ∧ _invalid wr' = _invalid wr ∧
                           _root wr' = _root wr ∧ _gpbFields wr' = _gpbFields wr ∧
                           _read_only wr' = _read_only wr
       | None => True
       end.

(** * Specification vocabulary *)

(** [wp m s Q E]: when [m] runs from [s] and returns or raises, the
    outcome satisfies [Q] or [E] respectively. *)
Definition wp {A} (m : M A) (s : State) (Q : A → State → Prop) (E : Error → State → Prop) : Prop :=
  match m s with
  | Ok a s' => Q a s'
  | Raise e s' => E e s'
  | OutOfFuel => True
  end.

(** [returns m s Q]: when [m] runs from [s] and returns, [Q] holds. *)
Definition returns {A} (m : M A) (s : State) (Q : A → State → Prop) : Prop :=
  wp m s Q (λ _ _, True).

(** Every state change of [m], up to its return or its exception, is a
    step of the relation [R], and every exception that [m] raises is one
    of [E]. *)
Definition behaves {A} (R : relation State) (E : Error → Prop) (m : M A) : Prop :=
  ∀ s, wp m s (λ _ s', R s s') (λ e s', E e ∧ R s s').

(** Every state change of [m] is a step of [R]. *)
Definition steps {A} (R : relation State) (m : M A) : Prop :=
  behaves R (λ _, True) m.

(** [m] never raises [e]. *)
Definition never_raises {A} (e : Error) (m : M A) : Prop :=
  behaves (λ _ _, True) (λ e', e' ≠ e) m.

(** Observations on a state. *)

(** [w] is a wrapper that has been invalidated. *)
Definition invalidated (s : State) (w : ObjId) : Prop :=
  ∃ wr, wrappers s !! w = Some wr ∧ _invalid wr = true.

(** [w] is a wrapper whose own [_modified] attribute is [True]. *)
Definition marked (s : State) (w : ObjId) : Prop :=
  ∃ wr, wrappers s !! w = Some wr ∧ _modified wr = Some true.

(** The root of a wrapper, if it has one. *)
Definition root_of (s : State) (w : ObjId) : option ObjId :=
  wrappers s !! w ≫= _root.

(** The links in [ParentLinks] and in [ChildLinks] of a root wrapper. *)
Definition parent_links (s : State) (w : ObjId) : gset ObjId :=
  default ∅ (wrappers s !! w ≫= _parent_links).
Definition child_links (s : State) (w : ObjId) : gset ObjId :=
  default ∅ (wrappers s !! w ≫= _child_links).

(** [MyId] as stored on a root wrapper. *)
Definition my_id (s : State) (w : ObjId) : option string :=
  wrappers s !! w ≫= _myid.

(** The workspace entry that [_set_parents_modified] leaves for a node with
    the old id [old] that is given the id [new]. *)
Definition rekey (old : option string) (new : string) (r : ObjId)
    (ws : gmap string ObjId) : gmap string ObjId :=
  match old ≫= (λ k, <[new := r]> ws !! k ≫= (λ _, Some k)) with
  | Some k => delete k (<[new := r]> ws)
  | None => <[new := r]> ws
  end.

(** No wrapper is a proxy that still holds its serialized value. *)
Definition no_proxies (s : State) : Prop :=
  map_Forall (λ _ wr, _bytes wr = None) (wrappers s).

(** Every object is older than the next identity to be handed out. *)
Definition ids_fresh (s : State) : Prop :=
  map_Forall (λ o _, (o < next_id s)%nat) (gpb_heap s) ∧
  map_Forall (λ o _, (o < next_id s)%nat) (wrappers s) ∧
  map_Forall (λ o _, (o < next_id s)%nat) (cwrappers s).

(** [h'] is [h] up to the values of the fields in [names] of its messages. *)
Definition fields_written (names : list string) (h h' : gmap ObjId GpbObj) : Prop :=
  ∀ o, match h !! o, h' !! o with
       | Some (GMessage c f), Some (GMessage c' f') =>
           c' = c ∧ ∀ name, name ∉ names → f' !! name = f !! name
       | Some x, Some y => x = y
       | None, None => True
       | _, _ => False
       end.

(** [R] is a repository whose [_workspace_root] is [w]. *)
Definition is_workspace_root (s : State) (w : ObjId) : Prop :=
  ∃ R rp, repos s !! R = Some rp ∧ _workspace_root rp = Some w.

(** What marking nodes modified does to a state without proxies: a wrapper
    changes at most in [_modified], [_myid] and [_parent_links]; a marked
    wrapper does not change; marks are only set; parent links are only
    cleared, and only on a workspace root; repositories keep their root and
    their hashed elements; messages change in the field [key] only. *)
Definition mark_effect (s s' : State) : Prop :=
  no_proxies s →
  no_proxies s' ∧
  cwrappers s' = cwrappers s ∧
  next_id s' = next_id s ∧
  fields_written ["key"] (gpb_heap s) (gpb_heap s') ∧
  (∀ w, wrappers s !! w = None → wrappers s' !! w = None) ∧
  (∀ w wr, wrappers s !! w = Some wr →
     ∃ m k pl,
       wrappers s' !! w = Some (with_parent_links pl (with_myid k (with_modified m wr))) ∧
       (_modified wr = Some true → m = Some true ∧ k = _myid wr ∧ pl = _parent_links wr) ∧
       (m = _modified wr ∨ m = Some true) ∧
       (pl = _parent_links wr ∨ pl = Some ∅ ∧ is_workspace_root s w)) ∧
  (∀ R, repos s !! R = None → repos s' !! R = None) ∧
  (∀ R rp, repos s !! R = Some rp →
     ∃ rp', repos s' !! R = Some rp' ∧
            _workspace_root rp' = _workspace_root rp ∧
            _hashed_elements rp' = _hashed_elements rp ∧
            (_object_counter rp ≤ _object_counter rp')%nat).

(** Every parent of a marked node is marked, or is one of the nodes [X]
    that are still to be marked.  A parent of [c] is the root of a link in
    the [ParentLinks] of [c]. *)
Definition parents_marked_except (X : ObjId → Prop) (s : State) : Prop :=
  ∀ c cw links l lw p,
    wrappers s !! c = Some cw → _modified cw = Some true →
    _parent_links cw = Some links → l ∈ links →
    wrappers s !! l = Some lw → _root lw = Some p →
    marked s p ∨ X p.

(** All ancestors of a marked node are marked. *)
Definition parents_marked : State → Prop := parents_marked_except (λ _, False).

(** The roots of the links [links]. *)
Definition roots_of (s : State) (links : list ObjId) (p : ObjId) : Prop :=
  ∃ l lw, l ∈ links ∧ wrappers s !! l = Some lw ∧ _root lw = Some p.

(** The wrappers of [s] are those of [s'], none is invalidated or loses
    its mark on the way, and each keeps its root and its field names. *)
Definition wrappers_kept (s s' : State) : Prop :=
  ∀ w, match wrappers s !! w with
       | Some wr =>
           ∃ wr', wrappers s' !! w = Some wr' ∧ _invalid wr' = _invalid wr ∧
                  _root wr' = _root wr ∧ _gpbFields wr' = _gpbFields wr ∧
                  (_modified wr = Some true → _modified wr' = Some true)
       | None => wrappers s' !! w = None
       end.

(** The root of the valid wrapper [self] carries the mark. *)
Definition root_marked (s : State) (self : ObjId) : Prop :=
  ∃ wr r rw, wrappers s !! self = Some wr ∧ _invalid wr = false ∧ _root wr = Some r ∧
             wrappers s !! r = Some rw ∧ _modified rw = Some true.

(** Between [s] and [s'] no wrapper comes or goes, none changes in
    [_invalid], [_root], [_modified] or [_parent_links], no proxy appears
    and no identity is handed out twice. *)
Definition links_kept (s s' : State) : Prop :=
  (no_proxies s → no_proxies s') ∧ (next_id s ≤ next_id s')%nat ∧
  ∀ w, match wrappers s !! w with
       | Some wr =>
           ∃ wr', wrappers s' !! w = Some wr' ∧ _invalid wr' = _invalid wr ∧
                  _root wr' = _root wr ∧ _modified wr' = _modified wr ∧
                  _parent_links wr' = _parent_links wr
       | None => wrappers s' !! w = None
       end.

(** What setting the link [link] does to the wrappers: the parent links
    grow by [link] at most, and [link] is the only wrapper that may be new,
    without a mark. *)
Definition link_effect (link : ObjId) (s s' : State) : Prop :=
  (no_proxies s → no_proxies s') ∧
  ∀ w, match wrappers s !! w with
       | Some wr =>
           ∃ wr', wrappers s' !! w = Some wr' ∧ _invalid wr' = _invalid wr ∧
                  _root wr' = _root wr ∧ _modified wr' = _modified wr ∧
                  ∀ l links', _parent_links wr' = Some links' → l ∈ links' →
                              l = link ∨ ∃ links, _parent_links wr = Some links ∧ l ∈ links
       | None =>
           wrappers s' !! w = None ∨
           w = link ∧ ∀ lw, wrappers s' !! w = Some lw → _modified lw ≠ Some true
       end.

(** Every wrapper is older than the next identity to be handed out. *)
Definition wrappers_fresh (s : State) : Prop :=
  ∀ w, is_Some (wrappers s !! w) → (w < next_id s)%nat.

Global Instance no_proxies_dec s : Decision (no_proxies s).
Proof. unfold no_proxies. apply _. Defined.

Global Instance ids_fresh_dec s : Decision (ids_fresh s).
Proof. unfold ids_fresh. apply _. Defined.

(** * Reasoning about computations *)

Lemma bind_unfold {A B} (m : M A) (k : A → M B) s :
  (m ≫= k) s = match m s with
               | Ok a s' => k a s'
               | Raise e s' => Raise e s'
               | OutOfFuel => OutOfFuel
               end.
Proof. reflexivity. Qed.

Lemma bind_Ok {A B} (m : M A) (k : A → M B) s a s1 :
  m s = Ok a s1 → (m ≫= k) s = k a s1.
Proof. intros H. rewrite bind_unfold, H. reflexivity. Qed.

Lemma bind_Raise {A B} (m : M A) (k : A → M B) s e s1 :
  m s = Raise e s1 → (m ≫= k) s = Raise e s1.
Proof. intros H. rewrite bind_unfold, H. reflexivity. Qed.

Lemma bind_assoc {A B C} (m : M A) (f : A → M B) (g : B → M C) s :
  ((m ≫= f) ≫= g) s = (m ≫= (λ a, f a ≫= g)) s.
Proof. rewrite !bind_unfold. by destruct (m s). Qed.

Lemma bind_ret {A B} (a : A) (k : A → M B) s : (mret a ≫= k) s = k a s.
Proof. reflexivity. Qed.

Lemma bind_modify {B} f (k : () → M B) s : (modify_state f ≫= k) s = k tt (f s).
Proof. reflexivity. Qed.

Lemma bind_get_state {B} (k : State → M B) s : (get_state ≫= k) s = k s s.
Proof. reflexivity. Qed.

Lemma bind_ext_on {A B} (m : M A) (k1 k2 : A → M B) s :
  (∀ a s1, m s = Ok a s1 → k1 a s1 = k2 a s1) → (m ≫= k1) s = (m ≫= k2) s.
Proof. intros H. rewrite !bind_unfold. destruct (m s); auto. Qed.

Lemma bind_inv_Ok {A B} (m : M A) (k : A → M B) s b s' :
  (m ≫= k) s = Ok b s' → ∃ a s1, m s = Ok a s1 ∧ k a s1 = Ok b s'.
Proof. rewrite bind_unfold. destruct (m s); [eauto | done | done]. Qed.

Lemma fmap_unfold {A B} (f : A → B) (m : M A) s :
  (f <$> m) s = match m s with
                | Ok a s' => Ok (f a) s'
                | Raise e s' => Raise e s'
                | OutOfFuel => OutOfFuel
                end.
Proof. reflexivity. Qed.

Lemma wp_ret {A} (a : A) s Q E : Q a s → wp (mret a) s Q E.
Proof. done. Qed.

Lemma wp_raise {A} e s (Q : A → State → Prop) E : E e s → wp (raise e) s Q E.
Proof. done. Qed.

Lemma wp_bind {A B} (m : M A) (k : A → M B) s Q E :
  wp m s (λ a s1, wp (k a) s1 Q E) E → wp (m ≫= k) s Q E.
Proof. unfold wp. rewrite bind_unfold. by destruct (m s). Qed.

Lemma wp_fmap {A B} (f : A → B) (m : M A) s Q E :
  wp m s (λ a s1, Q (f a) s1) E → wp (f <$> m) s Q E.
Proof. unfold wp. rewrite fmap_unfold. by destruct (m s). Qed.

Lemma wp_mono {A} (m : M A) s (Q Q' : A → State → Prop) (E E' : Error → State → Prop) :
  wp m s Q E → (∀ a s', Q a s' → Q' a s') → (∀ e s', E e s' → E' e s') → wp m s Q' E'.
Proof. unfold wp. destruct (m s); eauto. Qed.

Lemma wp_try_except {A} (m h : M A) e s Q E :
  wp m s Q (λ e' s', if decide (e' = e) then wp h s' Q E else E e' s') →
  wp (try_except m e h) s Q E.
Proof.
  unfold wp, try_except. destruct (m s) as [a s'|e' s'|]; try done.
  by destruct (decide (e' = e)).
Qed.

Lemma wp_get_state s Q E : Q s s → wp get_state s Q E.
Proof. done. Qed.

Lemma wp_modify_state f s (Q : () → State → Prop) E : Q tt (f s) → wp (modify_state f) s Q E.
Proof. done. Qed.

Lemma wp_Ok {A} (m : M A) s a s' Q E : m s = Ok a s' → wp m s Q E → Q a s'.
Proof. unfold wp. by intros ->. Qed.

Lemma wp_Raise {A} (m : M A) s e s' Q E : m s = Raise e s' → wp m s Q E → E e s'.
Proof. unfold wp. by intros ->. Qed.

Lemma wp_of_Ok {A} (m : M A) s a s' (Q : A → State → Prop) E :
  m s = Ok a s' → Q a s' → wp m s Q E.
Proof. unfold wp. by intros ->. Qed.

Lemma returns_bind {A B} (m : M A) (k : A → M B) s Q :
  returns m s (λ a s1, returns (k a) s1 Q) → returns (m ≫= k) s Q.
Proof. apply wp_bind. Qed.

Lemma returns_mono {A} (m : M A) s (Q Q' : A → State → Prop) :
  returns m s Q → (∀ a s', Q a s' → Q' a s') → returns m s Q'.
Proof. intros H HQ. eapply wp_mono; eauto. Qed.

Lemma returns_Ok {A} (m : M A) s a s' Q : m s = Ok a s' → returns m s Q → Q a s'.
Proof. apply wp_Ok. Qed.

Lemma returns_for_each {A} (I : State → Prop) (xs : list A) (body : A → M unit) s :
  I s →
  (∀ x s1, x ∈ xs → I s1 → returns (body x) s1 (λ _ s2, I s2)) →
  returns (for_each xs body) s (λ _ s', I s').
Proof.
  revert s. induction xs as [|x xs IH]; intros s Hs Hb; simpl.
  - by apply wp_ret.
  - apply returns_bind. eapply returns_mono; [apply Hb; [left | done]|].
    simpl. intros _ s1 H1. apply IH; [done|]. intros; apply Hb; [by right | done].
Qed.

(** A loop whose rounds are steps of a preorder [R], each round
    establishing a fact about its element that later steps keep. *)
Lemma returns_for_each_each {A} (R : relation State) `{!PreOrder R}
    (P : A → State → Prop) (xs : list A) (body : A → M unit) s0 :
  (∀ x s1, x ∈ xs → R s0 s1 → returns (body x) s1 (λ _ s2, R s1 s2 ∧ P x s2)) →
  (∀ x s1 s2, R s0 s1 → R s1 s2 → P x s1 → P x s2) →
  ∀ s, R s0 s →
       returns (for_each xs body) s (λ _ s', R s s' ∧ ∀ x, x ∈ xs → P x s').
Proof.
  intros Hbody Hstable. induction xs as [|x xs IH]; intros s Hs; simpl.
  - apply wp_ret. split; [reflexivity|]. intros x Hx. by apply elem_of_nil in Hx.
  - apply returns_bind. eapply returns_mono; [apply Hbody; [left | done]|].
    cbn beta. intros _ s2 [H12 Hx].
    eapply returns_mono.
    { apply IH; [|by etrans]. intros y s1 Hy. apply Hbody. by right. }
    cbn beta. intros _ s' [H2' Hall]. split; [by etrans|].
    intros y Hy. apply elem_of_cons in Hy as [->|Hy]; [|by apply Hall].
    eapply Hstable; [| exact H2' | exact Hx]. by etrans.
Qed.

Section Behaves.
Context (R : relation State) `{!PreOrder R} (E : Error → Prop).

Lemma behaves_ret {A} (a : A) : behaves R E (mret a).
Proof using Type*. intros s. apply wp_ret. reflexivity. Qed.

Lemma behaves_raise {A} e : E e → behaves R E (raise (A := A) e).
Proof using Type*. intros He s. apply wp_raise. split; [done | reflexivity]. Qed.

Lemma behaves_out_of_fuel {A} : behaves R E (out_of_fuel (A := A)).
Proof using Type*. intros s. done. Qed.

Lemma behaves_get_state : behaves R E get_state.
Proof using Type*. intros s. apply wp_get_state. reflexivity. Qed.

Lemma behaves_modify_state f : (∀ s, R s (f s)) → behaves R E (modify_state f).
Proof using Type*. intros H s. apply wp_modify_state, H. Qed.

Lemma behaves_alloc : (∀ s, R s (set_next_id (S (next_id s)) s)) → behaves R E alloc.
Proof using Type*. intros H s. apply H. Qed.

(** A computation that only reads the state. *)
Lemma behaves_read {A} (m : M A) :
  (∀ s, match m s with
        | Ok _ s' => s' = s
        | Raise e s' => E e ∧ s' = s
        | OutOfFuel => True
        end) →
  behaves R E m.
Proof using Type*.
  intros H s. specialize (H s). unfold wp. destruct (m s) as [a s'|e s'|]; [| |done].
  - subst. reflexivity.
  - destruct H as [? ->]. split; [done | reflexivity].
Qed.

Lemma behaves_bind {A B} (m : M A) (k : A → M B) :
  behaves R E m → (∀ a, behaves R E (k a)) → behaves R E (m ≫= k).
Proof using Type*.
  intros Hm Hk s. apply wp_bind. eapply wp_mono; [apply Hm | |]; cbn beta; [|done].
  intros a s1 H1. eapply wp_mono; [apply Hk | |]; cbn beta.
  - intros; by etrans.
  - intros e s2 [? ?]. split; [done | by etrans].
Qed.

Lemma behaves_fmap {A B} (f : A → B) (m : M A) : behaves R E m → behaves R E (f <$> m).
Proof using Type*. intros Hm s. apply wp_fmap. apply Hm. Qed.

Lemma behaves_try_except {A} (m h : M A) e :
  behaves R E m → behaves R E h → behaves R E (try_except m e h).
Proof using Type*.
  intros Hm Hh s. apply wp_try_except. eapply wp_mono; [apply Hm | |]; cbn beta; [done|].
  intros e' s' [He' H1]. destruct (decide (e' = e)); [|done].
  eapply wp_mono; [apply Hh | |]; cbn beta.
  - intros; by etrans.
  - intros e2 s2 [? ?]. split; [done | by etrans].
Qed.

Lemma behaves_for_each {A} (xs : list A) (body : A → M unit) :
  (∀ x, behaves R E (body x)) → behaves R E (for_each xs body).
Proof using Type*.
  intros Hb. induction xs as [|x xs IH]; simpl.
  - apply behaves_ret.
  - apply behaves_bind; [apply Hb | intros _; apply IH].
Qed.

Lemma behaves_fold_links {A} (links : list ObjId) (body : ObjId → A → M A) acc :
  (∀ x a, behaves R E (body x a)) → behaves R E (fold_links links body acc).
Proof using Type*.
  intros Hb. revert acc. induction links as [|x xs IH]; intros acc; simpl.
  - apply behaves_ret.
  - apply behaves_bind; [apply Hb | intros a; apply IH].
Qed.

End Behaves.

Global Instance any_step_preorder : PreOrder (λ _ _ : State, True).
Proof. by split. Qed.

(** What holds of the steps of a computation holds of its result. *)
Lemma behaves_returns {A} R E (m : M A) s :
  behaves R E m → returns m s (λ _ s', R s s').
Proof. intros H. eapply wp_mono; [apply H | done | done]. Qed.


Lemma behaves_Raise {A} R E (m : M A) s e s' :
  behaves R E m → m s = Raise e s' → E e ∧ R s s'.
Proof. intros H Hrun. specialize (H s). unfold wp in H. by rewrite Hrun in H. Qed.

(** Walk through a computation: the monad operations by their rules, a
    case distinction at every branch, the unfolding of every definition;
    [leaf] settles what is left: state changes, side conditions on
    exceptions, and the computations known from the context.  What it
    cannot settle is left as a goal. *)
Ltac head_of t := lazymatch t with ?f _ => head_of f | _ => t end.
Ltac walk leaf :=
  cbv beta;
  lazymatch goal with
  | |- steps _ _ => unfold steps; walk leaf
  | |- never_raises _ _ => unfold never_raises; walk leaf
  | |- behaves _ _ (mret _) => apply behaves_ret; apply _
  | |- behaves _ _ (ret _) => apply behaves_ret; apply _
  | |- behaves _ _ (raise _) => apply behaves_raise; [apply _ .. | try (solve [leaf])]
  | |- behaves _ _ out_of_fuel => apply behaves_out_of_fuel; apply _
  | |- behaves _ _ get_state => apply behaves_get_state; apply _
  | |- behaves _ _ alloc => apply behaves_alloc; [apply _ .. | try (solve [leaf])]
  | |- behaves _ _ (λ _, _) =>
      apply behaves_read;
        [apply _ .. | intros ?; repeat case_match; simplify_eq; try (solve [leaf])]
  | |- behaves _ _ (modify_state _) => apply behaves_modify_state; [apply _ .. | try (solve [leaf])]
  | |- behaves _ _ (_ ≫= _) =>
      apply behaves_bind; [apply _ .. | walk leaf | intros ?; walk leaf]
  | |- behaves _ _ (_ <$> _) => apply behaves_fmap; [apply _ .. | walk leaf]
  | |- behaves _ _ (try_except _ _ _) =>
      apply behaves_try_except; [apply _ .. | walk leaf | walk leaf]
  | |- behaves _ _ (for_each _ _) =>
      apply behaves_for_each; [apply _ .. | intros ?; walk leaf]
  | |- behaves _ _ (fold_links _ _ _) =>
      apply behaves_fold_links; [apply _ .. | intros ? ?; walk leaf]
  | |- behaves _ _ (match ?x with _ => _ end) => destruct x eqn:?; walk leaf
  | |- behaves _ _ ?m =>
      first [ solve [leaf]
            | progress cbn [new_id get_linked_object set_linked_object spec_repository];
              walk leaf
            | let h := head_of m in progress unfold h; walk leaf
            | idtac ]
  end.

(** Run the computation at the head of the goal with a known result. *)
Ltac run_with H :=
  rewrite ?bind_assoc; first [rewrite (bind_Ok _ _ _ _ _ H) | rewrite H]; cbv beta.
Ltac run_pure :=
  rewrite ?bind_assoc;
  first [rewrite bind_ret | rewrite bind_modify | rewrite bind_get_state]; cbv beta.

(** * The properties of the wrapper *)

Section Primitives.
Context {runtime : Runtime}.

(** Exact results on a wrapper that is known. *)

Lemma the_wrapper_ok s w wr : wrappers s !! w = Some wr → the_wrapper w s = Ok wr s.
Proof. intros H. unfold the_wrapper. by rewrite H. Qed.

Lemma check_valid_ok s self wr :
  wrappers s !! self = Some wr → _invalid wr = false → check_valid self s = Ok tt s.
Proof. intros Hw Hv. unfold check_valid. rewrite (bind_Ok _ _ _ _ _ (the_wrapper_ok _ _ _ Hw)), Hv. done. Qed.

Lemma check_valid_invalid s self wr :
  wrappers s !! self = Some wr → _invalid wr = true →
  check_valid self s = Raise InvalidatedObjectError s.
Proof. intros Hw Hv. unfold check_valid. rewrite (bind_Ok _ _ _ _ _ (the_wrapper_ok _ _ _ Hw)), Hv. done. Qed.

Lemma Root_ok s self wr :
  wrappers s !! self = Some wr → _invalid wr = false → Root self s = Ok (_root wr) s.
Proof.
  intros Hw Hv. unfold Root.
  rewrite (bind_Ok _ _ _ _ _ (check_valid_ok _ _ _ Hw Hv)).
  by rewrite (bind_Ok _ _ _ _ _ (the_wrapper_ok _ _ _ Hw)).
Qed.

Lemma IsRoot_ok s self wr :
  wrappers s !! self = Some wr → _invalid wr = false →
  IsRoot self s = Ok (bool_decide (_root wr = Some self)) s.
Proof.
  intros Hw Hv. unfold IsRoot.
  rewrite (bind_Ok _ _ _ _ _ (check_valid_ok _ _ _ Hw Hv)).
  by rewrite (bind_Ok _ _ _ _ _ (the_wrapper_ok _ _ _ Hw)).
Qed.

Lemma ObjectType_ok s self wr :
  wrappers s !! self = Some wr → _invalid wr = false → ObjectType self s = Ok (_gpb_type wr) s.
Proof.
  intros Hw Hv. unfold ObjectType.
  rewrite (bind_Ok _ _ _ _ _ (check_valid_ok _ _ _ Hw Hv)).
  by rewrite (bind_Ok _ _ _ _ _ (the_wrapper_ok _ _ _ Hw)).
Qed.

Lemma root_attribute_ok {A} (attr : Wrapper → A) s self wr r rw :
  wrappers s !! self = Some wr → _invalid wr = false →
  _root wr = Some r → wrappers s !! r = Some rw →
  root_attribute attr self s = Ok (attr rw) s.
Proof.
  intros Hw Hv Hr Hrw. unfold root_attribute.
  rewrite (bind_Ok _ _ _ _ _ (check_valid_ok _ _ _ Hw Hv)).
  rewrite (bind_Ok _ _ _ _ _ (Root_ok _ _ _ Hw Hv)), Hr.
  by rewrite (bind_Ok _ _ _ _ _ (the_wrapper_ok _ _ _ Hrw)).
Qed.

Lemma set_root_attribute_ok upd s self wr r rw :
  wrappers s !! self = Some wr → _invalid wr = false →
  _root wr = Some r → wrappers s !! r = Some rw →
  set_root_attribute upd self s = Ok tt (set_wrappers (alter upd r) s).
Proof.
  intros Hw Hv Hr Hrw. unfold set_root_attribute.
  rewrite (bind_Ok _ _ _ _ _ (check_valid_ok _ _ _ Hw Hv)).
  rewrite (bind_Ok _ _ _ _ _ (Root_ok _ _ _ Hw Hv)), Hr.
  by rewrite (bind_Ok _ _ _ _ _ (the_wrapper_ok _ _ _ Hrw)).
Qed.

Lemma GPBMessage_ok s self wr :
  wrappers s !! self = Some wr → _invalid wr = false → _bytes wr = None →
  GPBMessage self s = Ok (_gpbMessage wr) s.
Proof.
  intros Hw Hv Hb. unfold GPBMessage.
  rewrite (bind_Ok _ _ _ _ _ (check_valid_ok _ _ _ Hw Hv)).
  rewrite (bind_Ok _ _ _ _ _ (the_wrapper_ok _ _ _ Hw)), Hb.
  rewrite bind_unfold. simpl.
  by rewrite (bind_Ok _ _ _ _ _ (the_wrapper_ok _ _ _ Hw)).
Qed.

Lemma the_repository_ok s r rp : repos s !! r = Some rp → the_repository (Some r) s = Ok rp s.
Proof. intros H. unfold the_repository. simpl. by rewrite H. Qed.

Lemma update_repository_ok s r f :
  update_repository (Some r) f s = Ok tt (set_repos (alter f r) s).
Proof. reflexivity. Qed.

Lemma update_wrapper_ok s w f : update_wrapper w f s = Ok tt (set_wrappers (alter f w) s).
Proof. reflexivity. Qed.

(** What is known once a property has returned. *)

Lemma wp_the_wrapper w s Q E :
  (∀ wr, wrappers s !! w = Some wr → Q wr s) →
  (wrappers s !! w = None → E AttributeError s) →
  wp (the_wrapper w) s Q E.
Proof. intros HQ HE. unfold wp, the_wrapper. destruct (wrappers s !! w); eauto. Qed.

Lemma wp_check_valid self s Q E :
  (∀ wr, wrappers s !! self = Some wr → _invalid wr = false → Q tt s) →
  (invalidated s self → E InvalidatedObjectError s) →
  (wrappers s !! self = None → E AttributeError s) →
  wp (check_valid self) s Q E.
Proof.
  intros HQ HI HE. unfold check_valid. apply wp_bind, wp_the_wrapper; [|done].
  intros wr Hw. destruct (_invalid wr) eqn:Hv.
  - apply wp_raise, HI. by exists wr.
  - apply wp_ret. eauto.
Qed.

Lemma returns_the_wrapper w s Q :
  (∀ wr, wrappers s !! w = Some wr → Q wr s) → returns (the_wrapper w) s Q.
Proof. intros. by apply wp_the_wrapper. Qed.

Lemma returns_check_valid self s Q :
  (∀ wr, wrappers s !! self = Some wr → _invalid wr = false → Q tt s) →
  returns (check_valid self) s Q.
Proof. intros. by apply wp_check_valid. Qed.

Lemma returns_Root self s Q :
  (∀ wr, wrappers s !! self = Some wr → _invalid wr = false → Q (_root wr) s) →
  returns (Root self) s Q.
Proof.
  intros HQ. unfold Root. apply returns_bind, returns_check_valid. intros wr Hw Hv.
  apply returns_bind, returns_the_wrapper. intros wr' Hw'. apply wp_ret.
  assert (wr' = wr) as -> by congruence. eauto.
Qed.

Lemma returns_ObjectType self s Q :
  (∀ wr, wrappers s !! self = Some wr → _invalid wr = false → Q (_gpb_type wr) s) →
  returns (ObjectType self) s Q.
Proof.
  intros HQ. unfold ObjectType. apply returns_bind, returns_check_valid. intros wr Hw Hv.
  apply returns_bind, returns_the_wrapper. intros wr' Hw'. apply wp_ret.
  assert (wr' = wr) as -> by congruence. eauto.
Qed.

Lemma returns_root_attribute {A} (attr : Wrapper → A) self s Q :
  (∀ wr r rw, wrappers s !! self = Some wr → _invalid wr = false →
              _root wr = Some r → wrappers s !! r = Some rw → Q (attr rw) s) →
  returns (root_attribute attr self) s Q.
Proof.
  intros HQ. unfold root_attribute. apply returns_bind, returns_check_valid. intros wr Hw Hv.
  apply returns_bind, returns_Root. intros wr' Hw' _.
  assert (wr' = wr) as -> by congruence.
  destruct (_root wr) as [r|] eqn:Hr; [|done].
  apply returns_bind, returns_the_wrapper. intros rw Hrw. apply wp_ret. eauto.
Qed.

Lemma returns_set_root_attribute upd self s Q :
  (∀ wr r rw, wrappers s !! self = Some wr → _invalid wr = false →
              _root wr = Some r → wrappers s !! r = Some rw →
              Q tt (set_wrappers (alter upd r) s)) →
  returns (set_root_attribute upd self) s Q.
Proof.
  intros HQ. unfold set_root_attribute. apply returns_bind, returns_check_valid. intros wr Hw Hv.
  apply returns_bind, returns_Root. intros wr' Hw' _.
  assert (wr' = wr) as -> by congruence.
  destruct (_root wr) as [r|] eqn:Hr; [|done].
  apply returns_bind, returns_the_wrapper. intros rw Hrw.
  unfold update_wrapper. apply wp_modify_state. eauto.
Qed.

Lemma returns_the_repository repo s Q :
  (∀ r rp, repo = Some r → repos s !! r = Some rp → Q rp s) →
  returns (the_repository repo) s Q.
Proof.
  intros HQ. unfold returns, wp, the_repository.
  destruct repo as [r|]; simpl; [|done]. destruct (repos s !! r) eqn:?; eauto.
Qed.

Lemma returns_not_None {A} (o : option A) s Q :
  (∀ x, o = Some x → Q x s) → returns (not_None o) s Q.
Proof. intros HQ. destruct o; [by apply wp_ret, HQ | done]. Qed.

(** A wrapper that has been invalidated fails every property but [Invalid]. *)
Lemma root_attribute_invalid {A} (attr : Wrapper → A) s self :
  invalidated s self → root_attribute attr self s = Raise InvalidatedObjectError s.
Proof.
  intros (wr & Hw & Hv). unfold root_attribute.
  by rewrite (bind_Raise _ _ _ _ _ (check_valid_invalid _ _ _ Hw Hv)).
Qed.

Lemma returns_GPBMessage self s Q :
  no_proxies s →
  (∀ wr, wrappers s !! self = Some wr → _invalid wr = false → Q (_gpbMessage wr) s) →
  returns (GPBMessage self) s Q.
Proof.
  intros Hnp HQ. unfold returns, wp.
  destruct (wrappers s !! self) as [wr|] eqn:Hw; cycle 1.
  { unfold GPBMessage. by rewrite (bind_Raise _ _ s AttributeError s);
      [|unfold check_valid, the_wrapper; by rewrite bind_unfold, Hw]. }
  destruct (_invalid wr) eqn:Hv.
  { unfold GPBMessage. by rewrite (bind_Raise _ _ _ _ _ (check_valid_invalid _ _ _ Hw Hv)). }
  rewrite (GPBMessage_ok _ _ _ Hw Hv (Hnp _ _ Hw)). eauto.
Qed.

Lemma returns_the_message gpb s Q :
  (∀ g cls flds, gpb = Some g → gpb_heap s !! g = Some (GMessage cls flds) → Q (cls, flds) s) →
  returns (the_message gpb) s Q.
Proof.
  intros HQ. unfold returns, wp, the_message. destruct gpb as [g|]; simpl; [|done].
  destruct (gpb_heap s !! g) as [[cls flds| |]|] eqn:Hg; try done. eauto.
Qed.

Lemma returns_gpb_setattr gpb name value s Q :
  (∀ g cls flds d v,
      gpb = Some g → gpb_heap s !! g = Some (GMessage cls flds) →
      assoc name (fields_by_name (DESCRIPTOR cls)) = Some (DScalar d) →
      value = PScalar v → same_kind d v = true →
      Q tt (set_gpb_heap (alter (λ o, match o with
                                      | GMessage c f => GMessage c (<[name:=VScalar v]> f)
                                      | o => o
                                      end) g) s)) →
  returns (gpb_setattr gpb name value) s Q.
Proof.
  intros HQ. unfold gpb_setattr. apply returns_bind, returns_the_message.
  intros g cls flds -> Hg.
  destruct (assoc name _) as [[d| | |]|] eqn:Hf; try done.
  destruct value as [|v| | | | | | |]; try done.
  destruct (same_kind d v) eqn:Hk; [|done].
  unfold store_field. apply wp_modify_state. eauto.
Qed.

End Primitives.

(** * Marking a node and its parents modified *)

Lemma lookup_alter_wrapper f r s w wr :
  wrappers s !! w = Some wr →
  wrappers (set_wrappers (alter f r) s) !! w = Some (if decide (r = w) then f wr else wr).
Proof.
  intros H. simpl. destruct (decide (r = w)) as [->|].
  - by rewrite lookup_alter_eq, H.
  - by rewrite lookup_alter_ne.
Qed.

Lemma alter_known {K A} `{Countable K} (f : A → A) (k : K) (m : gmap K A) x :
  m !! k = Some x → alter f k m = <[k := f x]> m.
Proof.
  intros Hk. apply map_eq. intros i. destruct (decide (i = k)) as [->|].
  - by rewrite lookup_alter_eq, lookup_insert_eq, Hk.
  - by rewrite lookup_alter_ne, lookup_insert_ne.
Qed.

Lemma State_eq (s1 s2 : State) :
  gpb_heap s1 = gpb_heap s2 → wrappers s1 = wrappers s2 → cwrappers s1 = cwrappers s2 →
  repos s1 = repos s2 → next_id s1 = next_id s2 → s1 = s2.
Proof. destruct s1, s2. simpl. by intros -> -> -> -> ->. Qed.

Section MarkModified.
Context {runtime : Runtime}.

Section AnyRepository.
Context {repository : RepositoryMethods}.

Lemma mark_modified_noop fuel s self wr r rw :
  wrappers s !! self = Some wr → _invalid wr = false →
  _root wr = Some r → wrappers s !! r = Some rw → _modified rw = Some true →
  _set_parents_modified (S fuel) self s = Ok tt s.
Proof.
  intros Hw Hv Hr Hrw Hm. simpl.
  rewrite (bind_Ok _ _ _ _ _ (check_valid_ok _ _ _ Hw Hv)).
  unfold _get_modified.
  rewrite (bind_Ok _ _ _ _ _ (root_attribute_ok _ _ _ _ _ _ Hw Hv Hr Hrw)).
  by rewrite Hm.
Qed.

End AnyRepository.

Context (rfuel : nat) (backing_store : ObjId → string → M ObjId).
#[local] Hint Extern 0 RepositoryMethods =>
  exact (spec_repository rfuel backing_store) : typeclass_instances.

Lemma mark_prefix fuel s self wr r rw R rp :
  wrappers s !! self = Some wr → _invalid wr = false → _root wr = Some r →
  wrappers s !! r = Some rw → truthy (_modified rw) = false →
  _repository rw = Some R → repos s !! R = Some rp →
  let new := pretty (S (_object_counter rp)) in
  let rw1 := with_myid (Some new) (with_modified (Some true) rw) in
  let rp1 := with_workspace (rekey (_myid rw) new r (_workspace rp))
               (with_object_counter (S (_object_counter rp)) rp) in
  let s1 := {| gpb_heap := gpb_heap s; wrappers := <[r := rw1]> (wrappers s);
               cwrappers := cwrappers s; repos := <[R := rp1]> (repos s);
               next_id := next_id s |} in
  _set_parents_modified (S fuel) self s =
    (if bool_decide (Some r = _workspace_root rp) then _set_parent_links self ∅
     else
       pl ← _get_parent_links self;
       links ← not_None pl;
       for_each (elements links) (λ link,
         myid ← _get_myid self;
         gpb ← GPBMessage link;
         gpb_setattr gpb "key" (match myid with Some k => PScalar (SStr k) | None => PNone end);;
         _set_parents_modified fuel link)) s1.
Proof.
  intros Hw Hv Hr Hrw Hm HR Hrp new rw1 rp1 s1.
  cbn [_set_parents_modified].
  rewrite (bind_Ok _ _ _ _ _ (check_valid_ok _ _ _ Hw Hv)).
  unfold _get_modified.
  rewrite (bind_Ok _ _ _ _ _ (root_attribute_ok _ _ _ _ _ _ Hw Hv Hr Hrw)).
  rewrite Hm.
  unfold _set_modified.
  rewrite (bind_Ok _ _ _ _ _ (set_root_attribute_ok _ _ _ _ _ _ Hw Hv Hr Hrw)).
  set (sA := set_wrappers _ s).
  pose proof (lookup_alter_wrapper (with_modified (Some true)) r s self wr Hw) as HwA.
  pose proof (lookup_alter_wrapper (with_modified (Some true)) r s r rw Hrw) as HrwA.
  fold sA in HwA, HrwA. rewrite decide_True in HrwA by done.
  assert (HvA : _invalid (if decide (r = self) then with_modified (Some true) wr else wr) = false)
    by (by destruct (decide _)).
  assert (HrA : _root (if decide (r = self) then with_modified (Some true) wr else wr) = Some r)
    by (by destruct (decide _)).
  unfold get_Repository.
  rewrite (bind_Ok _ _ _ _ _ (root_attribute_ok _ _ _ _ _ _ HwA HvA HrA HrwA)).
  cbn [_repository with_modified]. rewrite HR.
  unfold call_new_id.
  assert (HrpA : repos sA !! R = Some rp) by done.
  run_with (the_repository_ok _ _ _ HrpA).
  cbn [new_id spec_repository]. unfold spec_new_id.
  run_with (the_repository_ok _ _ _ HrpA).
  run_with (update_repository_ok sA R (with_object_counter (S (_object_counter rp)))).
  run_pure.
  set (sB := set_repos _ sA).
  assert (HwB : wrappers sB !! self = wrappers sA !! self) by done.
  rewrite <- HwB in HwA.
  run_with (Root_ok _ _ _ HwA HvA). rewrite HrA.
  run_with (update_repository_ok sB R (λ rp0, with_workspace (<[new:=r]> (_workspace rp0)) rp0)).
  set (sC := set_repos _ sB).
  assert (HrpC : repos sC !! R = Some (with_workspace (<[new:=r]> (_workspace rp))
                                         (with_object_counter (S (_object_counter rp)) rp))).
  { subst sC sB. cbn [repos set_repos]. by rewrite !lookup_alter_eq, HrpA. }
  run_with (the_repository_ok _ _ _ HrpC).
  assert (HrwC : wrappers sC !! r = Some (with_modified (Some true) rw)) by done.
  unfold _get_myid.
  run_with (root_attribute_ok _myid sC _ _ _ _ HwA HvA HrA HrwC).
  cbn [_myid with_modified _workspace with_workspace].
  set (sD := set_repos (<[R := rp1]>) sA).
  assert (HD : (match _myid rw ≫= (λ k, <[new:=r]> (_workspace rp) !! k ≫= (λ _, Some k)) with
                | Some k => update_repository (Some R)
                              (λ rp, with_workspace (delete k (_workspace rp)) rp)
                | None => mret ()
                end) sC = Ok tt sD).
  { subst sD rp1. unfold rekey.
    destruct (_myid rw ≫= _) as [k|] eqn:Hk.
    - rewrite update_repository_ok. f_equal. apply State_eq; try done.
      cbn [repos set_repos]. subst sC sB. cbn [repos set_repos].
      by rewrite (alter_known _ _ _ _ HrpA), !alter_insert_eq.
    - change (Ok () sC = Ok () (set_repos (<[R := with_workspace (<[new:=r]> (_workspace rp)) (with_object_counter (S (_object_counter rp)) rp)]>) sA)).
      f_equal. apply State_eq; try done.
      subst sC sB. cbn [repos set_repos].
      by rewrite (alter_known _ _ _ _ HrpA), !alter_insert_eq. }
  run_with HD.
  assert (HwD : wrappers sD !! self = wrappers sB !! self) by done.
  assert (HrwD : wrappers sD !! r = Some (with_modified (Some true) rw)) by done.
  rewrite <- HwD in HwA.
  unfold _set_myid.
  run_with (set_root_attribute_ok (with_myid (Some new)) _ _ _ _ _ HwA HvA HrA HrwD).
  assert (Hs1 : set_wrappers (alter (with_myid (Some new)) r) sD = s1).
  { apply State_eq; try done. subst s1 sD sA. cbn [wrappers set_wrappers set_repos].
    by rewrite (alter_known _ _ _ _ Hrw), alter_insert_eq. }
  rewrite Hs1.
  assert (Hw1 : wrappers s1 !! self = Some (if decide (r = self) then rw1 else wr)).
  { subst s1. cbn [wrappers]. destruct (decide (r = self)) as [->|].
    - by rewrite lookup_insert_eq.
    - by rewrite lookup_insert_ne. }
  assert (Hv1 : _invalid (if decide (r = self) then rw1 else wr) = false).
  { destruct (decide _) as [E|]; [|done]. unfold rw1. cbn. congruence. }
  assert (Hr1 : _root (if decide (r = self) then rw1 else wr) = Some r).
  { destruct (decide _) as [E|]; [|done]. unfold rw1. cbn. congruence. }
  run_with (Root_ok _ _ _ Hw1 Hv1). rewrite Hr1.
  assert (Hrp1 : repos s1 !! R = Some rp1) by (subst s1; cbn [repos]; by rewrite lookup_insert_eq).
  run_with (the_repository_ok _ _ _ Hrp1).
  reflexivity.
Qed.


(** The two ways in which [_set_parents_modified] returns. *)
Lemma returns_set_parents_modified fuel self s (Q : () → State → Prop) :
  (∀ wr r rw, wrappers s !! self = Some wr → _invalid wr = false → _root wr = Some r →
              wrappers s !! r = Some rw → _modified rw = Some true → Q tt s) →
  (∀ wr r rw R rp,
      wrappers s !! self = Some wr → _invalid wr = false → _root wr = Some r →
      wrappers s !! r = Some rw → truthy (_modified rw) = false →
      _repository rw = Some R → repos s !! R = Some rp →
      let new := pretty (S (_object_counter rp)) in
      let rw1 := with_myid (Some new) (with_modified (Some true) rw) in
      let rp1 := with_workspace (rekey (_myid rw) new r (_workspace rp))
                   (with_object_counter (S (_object_counter rp)) rp) in
      let s1 := {| gpb_heap := gpb_heap s; wrappers := <[r := rw1]> (wrappers s);
                   cwrappers := cwrappers s; repos := <[R := rp1]> (repos s);
                   next_id := next_id s |} in
      returns (if bool_decide (Some r = _workspace_root rp) then _set_parent_links self ∅
               else
                 pl ← _get_parent_links self;
                 links ← not_None pl;
                 for_each (elements links) (λ link,
                   myid ← _get_myid self;
                   gpb ← GPBMessage link;
                   gpb_setattr gpb "key"
                     (match myid with Some k => PScalar (SStr k) | None => PNone end);;
                   _set_parents_modified fuel link)) s1 Q) →
  returns (_set_parents_modified (S fuel) self) s Q.
Proof.
  intros Hdone Hmark.
  destruct (wrappers s !! self) as [wr|] eqn:Hw; cycle 1.
  { cbn [_set_parents_modified]. apply returns_bind, returns_check_valid. congruence. }
  destruct (_invalid wr) eqn:Hv.
  { cbn [_set_parents_modified]. apply returns_bind, returns_check_valid. congruence. }
  destruct (_root wr) as [r|] eqn:Hr; cycle 1.
  { cbn [_set_parents_modified]. apply returns_bind, returns_check_valid. intros _ _ _.
    apply returns_bind, returns_root_attribute. congruence. }
  destruct (wrappers s !! r) as [rw|] eqn:Hrw; cycle 1.
  { cbn [_set_parents_modified]. apply returns_bind, returns_check_valid. intros _ _ _.
    apply returns_bind, returns_root_attribute. congruence. }
  destruct (truthy (_modified rw)) eqn:Hm.
  { unfold returns, wp. destruct (_modified rw) as [[]|] eqn:Hm'; try done.
    rewrite (mark_modified_noop _ _ _ _ _ _ Hw Hv Hr Hrw Hm'). eauto. }
  assert (Hfail : (_repository rw ≫= (λ R, repos s !! R)) = None →
                  returns (_set_parents_modified (S fuel) self) s Q).
  { intros Hnone. cbn [_set_parents_modified]. unfold returns, wp.
    run_with (check_valid_ok _ _ _ Hw Hv).
    unfold _get_modified. run_with (root_attribute_ok _modified _ _ _ _ _ Hw Hv Hr Hrw).
    rewrite Hm. unfold _set_modified.
    run_with (set_root_attribute_ok (with_modified (Some true)) _ _ _ _ _ Hw Hv Hr Hrw).
    set (sA := set_wrappers _ s).
    pose proof (lookup_alter_wrapper (with_modified (Some true)) r s self wr Hw) as HwA.
    pose proof (lookup_alter_wrapper (with_modified (Some true)) r s r rw Hrw) as HrwA.
    fold sA in HwA, HrwA. rewrite decide_True in HrwA by done.
    assert (HvA : _invalid (if decide (r = self) then with_modified (Some true) wr else wr) = false)
      by (by destruct (decide _)).
    assert (HrA : _root (if decide (r = self) then with_modified (Some true) wr else wr) = Some r)
      by (by destruct (decide _)).
    unfold get_Repository.
    run_with (root_attribute_ok _repository _ _ _ _ _ HwA HvA HrA HrwA).
    cbn [_repository with_modified]. unfold call_new_id.
    rewrite bind_assoc, bind_unfold.
    unfold the_repository. change (repos sA) with (repos s). rewrite Hnone. done. }
  destruct (_repository rw) as [R|] eqn:HR; [|by apply Hfail].
  destruct (repos s !! R) as [rp|] eqn:Hrp; [|by apply Hfail].
  unfold returns, wp. rewrite (mark_prefix _ _ _ _ _ _ _ _ Hw Hv Hr Hrw Hm HR Hrp).
  by apply (Hmark wr r rw R rp).
Qed.

End MarkModified.

(** ** The effect of marking *)

Lemma fields_written_refl names h : fields_written names h h.
Proof. intros o. destruct (h !! o) as [[]|]; done. Qed.

Lemma fields_written_trans names h1 h2 h3 :
  fields_written names h1 h2 → fields_written names h2 h3 → fields_written names h1 h3.
Proof.
  intros H12 H23 o. specialize (H12 o). specialize (H23 o).
  destruct (h1 !! o) as [[c1 f1| |]|], (h2 !! o) as [[c2 f2| |]|], (h3 !! o) as [[c3 f3| |]|];
    try done; try congruence.
  destruct H12 as [-> H12], H23 as [-> H23]. split; [done|].
  intros name Hn. by rewrite H23, H12.
Qed.

Lemma fields_written_store names h g name v :
  name ∈ names →
  fields_written names h (alter (λ o, match o with
                                      | GMessage c f => GMessage c (<[name:=v]> f)
                                      | o => o
                                      end) g h).
Proof.
  intros Hin o. destruct (decide (o = g)) as [->|].
  - rewrite lookup_alter_eq. destruct (h !! g) as [[c f| |]|]; simpl; try done.
    split; [done|]. intros n Hn. rewrite lookup_insert_ne; [done|]. intros ->. done.
  - rewrite lookup_alter_ne by done. destruct (h !! o) as [[]|]; done.
Qed.

Lemma with_fields_same wr :
  with_parent_links (_parent_links wr) (with_myid (_myid wr) (with_modified (_modified wr) wr)) = wr.
Proof. by destruct wr. Qed.

Lemma with_fields_twice pl1 k1 m1 pl2 k2 m2 wr :
  with_parent_links pl2 (with_myid k2 (with_modified m2
    (with_parent_links pl1 (with_myid k1 (with_modified m1 wr))))) =
  with_parent_links pl2 (with_myid k2 (with_modified m2 wr)).
Proof. by destruct wr. Qed.

Lemma mark_effect_refl s : mark_effect s s.
Proof.
  intros Hnp. split_and!; try done.
  - apply fields_written_refl.
  - intros w wr Hw. exists (_modified wr), (_myid wr), (_parent_links wr).
    rewrite with_fields_same. split_and!; auto.
  - intros R rp HR. exists rp. split_and!; auto.
Qed.

Lemma mark_effect_trans s1 s2 s3 : mark_effect s1 s2 → mark_effect s2 s3 → mark_effect s1 s3.
Proof.
  intros H12 H23 Hnp.
  destruct (H12 Hnp) as (Hnp2 & Hc12 & Hn12 & Hg12 & Hd12 & Hw12 & Hrd12 & Hr12).
  destruct (H23 Hnp2) as (Hnp3 & Hc23 & Hn23 & Hg23 & Hd23 & Hw23 & Hrd23 & Hr23).
  split_and!; try congruence; auto.
  - by eapply fields_written_trans.
  - intros w wr Hw.
    destruct (Hw12 _ _ Hw) as (m1 & k1 & pl1 & Hw2 & Hkeep1 & Hm1 & Hpl1).
    destruct (Hw23 _ _ Hw2) as (m2 & k2 & pl2 & Hw3 & Hkeep2 & Hm2 & Hpl2).
    rewrite with_fields_twice in Hw3. cbn in Hkeep2, Hm2, Hpl2.
    exists m2, k2, pl2. split_and!; [done| | |].
    + intros Hm. destruct (Hkeep1 Hm) as (-> & -> & ->).
      destruct (Hkeep2 eq_refl) as (-> & -> & ->). done.
    + destruct Hm2 as [-> | ->]; auto.
    + destruct Hpl2 as [-> | [-> (R & rp2 & HR2 & Hroot)]]; [done|]. right. split; [done|].
      destruct (repos s1 !! R) as [rp|] eqn:HR1.
      * destruct (Hr12 _ _ HR1) as (rp' & HR' & Hroot' & _). exists R, rp. split; [done|].
        congruence.
      * rewrite (Hrd12 _ HR1) in HR2. done.
  - intros R rp HR.
    destruct (Hr12 _ _ HR) as (rp2 & HR2 & ? & ? & ?).
    destruct (Hr23 _ _ HR2) as (rp3 & HR3 & ? & ? & ?).
    exists rp3. split_and!; try congruence. lia.
Qed.

Global Instance mark_effect_preorder : PreOrder mark_effect.
Proof. split; [exact mark_effect_refl | exact mark_effect_trans]. Qed.

Section MarkEffect.
Context {runtime : Runtime}.
Context (rfuel : nat) (backing_store : ObjId → string → M ObjId).
#[local] Hint Extern 0 RepositoryMethods =>
  exact (spec_repository rfuel backing_store) : typeclass_instances.

Lemma no_proxies_insert s r rw rw' :
  no_proxies s → wrappers s !! r = Some rw → _bytes rw' = _bytes rw →
  map_Forall (λ _ wr, _bytes wr = None) (<[r := rw']> (wrappers s)).
Proof.
  intros Hnp Hrw Hb. apply map_Forall_insert_2; [|done]. rewrite Hb. by eapply Hnp.
Qed.

(** The first half of the marking: the node gets its mark and a fresh id. *)
Lemma mark_effect_prefix s r rw R rp pl :
  wrappers s !! r = Some rw → truthy (_modified rw) = false →
  repos s !! R = Some rp →
  (pl = _parent_links rw ∨ pl = Some ∅ ∧ _workspace_root rp = Some r) →
  ∀ ws,
  mark_effect s
    {| gpb_heap := gpb_heap s;
       wrappers := <[r := with_parent_links pl (with_myid (Some (pretty (S (_object_counter rp))))
                                                  (with_modified (Some true) rw))]> (wrappers s);
       cwrappers := cwrappers s;
       repos := <[R := with_workspace ws (with_object_counter (S (_object_counter rp)) rp)]>
                  (repos s);
       next_id := next_id s |}.
Proof.
  intros Hrw Hm HR Hpl ws Hnp. cbn [gpb_heap wrappers cwrappers repos next_id].
  split_and!; try done.
  - by eapply no_proxies_insert.
  - apply fields_written_refl.
  - intros w Hw. rewrite lookup_insert_ne; [done|]. intros ->. congruence.
  - intros w wr Hw. destruct (decide (w = r)) as [->|].
    + rewrite lookup_insert_eq. assert (wr = rw) as -> by congruence.
      eexists _, _, _. split; [done|]. split_and!; auto.
      * intros Hmod. rewrite Hmod in Hm. done.
      * destruct Hpl as [->|[-> Hroot]]; [by left|]. right. split; [done|]. by exists R, rp.
    + rewrite lookup_insert_ne by done. exists (_modified wr), (_myid wr), (_parent_links wr).
      rewrite with_fields_same. split_and!; auto.
  - intros R' HR'. rewrite lookup_insert_ne; [done|]. intros ->. congruence.
  - intros R' rp' HR'. destruct (decide (R' = R)) as [->|].
    + rewrite lookup_insert_eq. assert (rp' = rp) as -> by congruence.
      eexists. split; [done|]. cbn. split_and!; auto.
    + rewrite lookup_insert_ne by done. exists rp'. split_and!; auto.
Qed.

Lemma mark_effect_key_write s g v :
  mark_effect s (set_gpb_heap (alter (λ o, match o with
                                           | GMessage c f => GMessage c (<["key":=v]> f)
                                           | o => o
                                           end) g) s).
Proof.
  intros Hnp. cbn. split_and!; try done.
  - apply fields_written_store. by left.
  - intros w wr Hw. exists (_modified wr), (_myid wr), (_parent_links wr).
    rewrite with_fields_same. split_and!; auto.
  - intros R rp HR. exists rp. split_and!; auto.
Qed.

Lemma set_parents_modified_effect fuel self s :
  no_proxies s →
  returns (_set_parents_modified fuel self) s (λ _ s', mark_effect s s').
Proof.
  revert self s. induction fuel as [|fuel IH]; intros self s Hnp; [done|].
  apply returns_set_parents_modified.
  { intros. reflexivity. }
  intros wr r rw R rp Hw Hv Hr Hrw Hm HR Hrp new rw1 rp1 s1.
  assert (Hs1 : mark_effect s s1).
  { subst s1 rw1. rewrite <- (with_fields_same rw) at 1.
    replace (with_myid (Some new) (with_modified (Some true) rw))
      with (with_parent_links (_parent_links rw) (with_myid (Some new) (with_modified (Some true) rw)))
      by (by destruct rw).
    apply mark_effect_prefix; auto. }
  assert (Hw1 : wrappers s1 !! self = Some (if decide (r = self) then rw1 else wr)).
  { subst s1. cbn [wrappers]. destruct (decide (r = self)) as [->|].
    - by rewrite lookup_insert_eq.
    - by rewrite lookup_insert_ne. }
  assert (Hv1 : _invalid (if decide (r = self) then rw1 else wr) = false).
  { destruct (decide _) as [E|]; [|done]. unfold rw1. cbn. congruence. }
  assert (Hr1 : _root (if decide (r = self) then rw1 else wr) = Some r).
  { destruct (decide _) as [E|]; [|done]. unfold rw1. cbn. congruence. }
  assert (Hrw1 : wrappers s1 !! r = Some rw1) by (subst s1; cbn; by rewrite lookup_insert_eq).
  case_bool_decide as Hroot.
  - unfold _set_parent_links, returns, wp.
    rewrite (set_root_attribute_ok _ _ _ _ _ _ Hw1 Hv1 Hr1 Hrw1).
    assert (set_wrappers (alter (with_parent_links (Some ∅)) r) s1 =
            {| gpb_heap := gpb_heap s;
               wrappers := <[r := with_parent_links (Some ∅) rw1]> (wrappers s);
               cwrappers := cwrappers s; repos := <[R := rp1]> (repos s);
               next_id := next_id s |}) as ->.
    { apply State_eq; try done. subst s1. cbn [wrappers set_wrappers].
      by rewrite alter_insert_eq. }
    apply mark_effect_prefix; auto.
  - apply returns_bind. unfold _get_parent_links. apply returns_root_attribute.
    intros wr' r' rw' _ _ _ _. apply returns_bind, returns_not_None. intros links _.
    eapply returns_mono.
    { apply (returns_for_each (λ s2, mark_effect s1 s2)); [reflexivity|].
      intros link s2 _ H12.
      assert (Hnp2 : no_proxies s2) by (apply H12, Hs1, Hnp).
      apply returns_bind. unfold _get_myid. apply returns_root_attribute.
      intros wr2 r2 rw2 _ _ _ _. apply returns_bind, returns_GPBMessage; [done|].
      intros lw Hlw Hlv. apply returns_bind, returns_gpb_setattr.
      intros g cls flds d v Hg Hgm Hfld Hval Hkind.
      eapply returns_mono; [apply IH|].
      - apply (mark_effect_key_write s2 g (VScalar v)), Hnp2.
      - cbn beta. intros _ s3 H23. etrans; [exact H12|].
        etrans; [apply mark_effect_key_write | exact H23]. }
    cbn beta. intros _ s' H1. by etrans.
Qed.


(** The loop over the parent links, after the node itself has been marked. *)
Lemma parents_loop_effect fuel self links s :
  no_proxies s →
  returns (for_each links (λ link,
             myid ← _get_myid self;
             gpb ← GPBMessage link;
             gpb_setattr gpb "key" (match myid with Some k => PScalar (SStr k) | None => PNone end);;
             _set_parents_modified fuel link)) s
          (λ _ s', mark_effect s s').
Proof.
  intros Hnp. apply (returns_for_each (λ s2, mark_effect s s2)); [reflexivity|].
  intros link s2 _ H12.
  assert (Hnp2 : no_proxies s2) by (apply H12, Hnp).
  apply returns_bind. unfold _get_myid. apply returns_root_attribute.
  intros wr2 r2 rw2 _ _ _ _. apply returns_bind, returns_GPBMessage; [done|].
  intros lw Hlw Hlv. apply returns_bind, returns_gpb_setattr.
  intros g cls flds d v Hg Hgm Hfld Hval Hkind.
  eapply returns_mono; [apply set_parents_modified_effect|].
  - apply (mark_effect_key_write s2 g (VScalar v)), Hnp2.
  - cbn beta. intros _ s3 H23. etrans; [exact H12|].
    etrans; [apply mark_effect_key_write | exact H23].
Qed.

(** A marked node stays as it is. *)
Lemma mark_effect_marked s s' w wr :
  no_proxies s → mark_effect s s' → wrappers s !! w = Some wr → _modified wr = Some true →
  wrappers s' !! w = Some wr.
Proof.
  intros Hnp He Hw Hm. destruct (He Hnp) as (_ & _ & _ & _ & _ & Hws & _).
  destruct (Hws _ _ Hw) as (m & k & pl & Hw' & Hkeep & _).
  destruct (Hkeep Hm) as (-> & -> & ->). by rewrite <- Hm, with_fields_same in Hw'.
Qed.

(** What does not depend on the marks stays as it is. *)
Lemma mark_effect_static s s' w wr :
  no_proxies s → mark_effect s s' → wrappers s !! w = Some wr →
  ∃ wr', wrappers s' !! w = Some wr' ∧ _invalid wr' = _invalid wr ∧ _root wr' = _root wr ∧
         _gpbMessage wr' = _gpbMessage wr ∧ _gpb_type wr' = _gpb_type wr ∧
         _repository wr' = _repository wr ∧ _read_only wr' = _read_only wr ∧
         _child_links wr' = _child_links wr ∧ _derived_wrappers wr' = _derived_wrappers wr ∧
         _gpbFields wr' = _gpbFields wr.
Proof.
  intros Hnp He Hw. destruct (He Hnp) as (_ & _ & _ & _ & _ & Hws & _).
  destruct (Hws _ _ Hw) as (m & k & pl & Hw' & _). eexists. split; [exact Hw'|].
  by destruct wr.
Qed.

(** After [_set_parents_modified] has returned, the root of the wrapper
    carries the mark. *)
Lemma set_parents_modified_marks fuel self s :
  no_proxies s →
  returns (_set_parents_modified fuel self) s
    (λ _ s', ∃ wr r rw, wrappers s' !! self = Some wr ∧ _invalid wr = false ∧
                        _root wr = Some r ∧ wrappers s' !! r = Some rw ∧
                        _modified rw = Some true).
Proof.
  intros Hnp. destruct fuel as [|fuel]; [done|].
  apply returns_set_parents_modified.
  { intros wr r rw ?????. by exists wr, r, rw. }
  intros wr r rw R rp Hw Hv Hr Hrw Hm HR Hrp new rw1 rp1 s1.
  assert (Hnp1 : no_proxies s1).
  { subst s1. unfold no_proxies. cbn [wrappers]. by eapply no_proxies_insert. }
  assert (Hw1 : wrappers s1 !! self = Some (if decide (r = self) then rw1 else wr)).
  { subst s1. cbn [wrappers]. destruct (decide (r = self)) as [->|].
    - by rewrite lookup_insert_eq.
    - by rewrite lookup_insert_ne. }
  assert (Hv1 : _invalid (if decide (r = self) then rw1 else wr) = false).
  { destruct (decide _) as [E|]; [|done]. unfold rw1. cbn. congruence. }
  assert (Hr1 : _root (if decide (r = self) then rw1 else wr) = Some r).
  { destruct (decide _) as [E|]; [|done]. unfold rw1. cbn. congruence. }
  assert (Hrw1 : wrappers s1 !! r = Some rw1) by (subst s1; cbn; by rewrite lookup_insert_eq).
  case_bool_decide as Hroot.
  - unfold _set_parent_links, returns, wp.
    rewrite (set_root_attribute_ok _ _ _ _ _ _ Hw1 Hv1 Hr1 Hrw1).
    pose proof (lookup_alter_wrapper (with_parent_links (Some ∅)) r s1 self _ Hw1) as Hw2.
    pose proof (lookup_alter_wrapper (with_parent_links (Some ∅)) r s1 r _ Hrw1) as Hrw2.
    rewrite decide_True in Hrw2 by done.
    eexists _, r, _. split; [exact Hw2|]. split_and!; [| |exact Hrw2|done].
    + destruct (decide (r = self)); cbn in *; congruence.
    + destruct (decide (r = self)); cbn in *; congruence.
  - apply returns_bind. unfold _get_parent_links. apply returns_root_attribute.
    intros wr' r' rw' _ _ _ _. apply returns_bind, returns_not_None. intros links _.
    eapply returns_mono; [by apply parents_loop_effect|].
    cbn beta. intros _ s' H1.
    destruct (mark_effect_static _ _ _ _ Hnp1 H1 Hw1) as (wr2 & Hw2 & Hv2 & Hr2 & _).
    exists wr2, r, rw1. split_and!; try congruence; [|done].
    by eapply mark_effect_marked.
Qed.

End MarkEffect.

(** * Marks are closed under parents *)

Lemma parents_marked_except_mono (X Y : ObjId → Prop) s :
  (∀ p, X p → marked s p ∨ Y p) → parents_marked_except X s → parents_marked_except Y s.
Proof.
  intros HXY H c cw links l lw p Hc Hm Hpl Hl Hlw Hp.
  destruct (H c cw links l lw p Hc Hm Hpl Hl Hlw Hp) as [?|?]; [by left | by apply HXY].
Qed.

(** Only the wrappers matter. *)
Lemma parents_marked_except_wrappers X s s' :
  wrappers s' = wrappers s → parents_marked_except X s → parents_marked_except X s'.
Proof. unfold parents_marked_except, marked. by intros ->. Qed.

Lemma mark_effect_roots_of s s' links p :
  no_proxies s → mark_effect s s' → roots_of s links p → roots_of s' links p.
Proof.
  intros Hnp He (l & lw & Hl & Hlw & Hp).
  destruct (mark_effect_static _ _ _ _ Hnp He Hlw) as (lw' & Hlw' & _ & Hr & _).
  exists l, lw'. split_and!; [done | done | congruence].
Qed.

Section Closure.
Context {runtime : Runtime}.
Context (rfuel : nat) (backing_store : ObjId → string → M ObjId).
#[local] Hint Extern 0 RepositoryMethods =>
  exact (spec_repository rfuel backing_store) : typeclass_instances.

(** The loop over the parent links marks the parents one after the other:
    what is still to be marked are the roots of the links not yet visited. *)
Lemma parents_loop_closes fuel self (X : ObjId → Prop) :
  (∀ link s (Y : ObjId → Prop), no_proxies s →
     (∀ wr r, wrappers s !! link = Some wr → _root wr = Some r →
              parents_marked_except (λ p, Y p ∨ p = r) s) →
     returns (_set_parents_modified fuel link) s (λ _ s', parents_marked_except Y s')) →
  ∀ links s, no_proxies s →
    parents_marked_except (λ p, X p ∨ roots_of s links p) s →
    returns (for_each links (λ link,
               myid ← _get_myid self;
               gpb ← GPBMessage link;
               gpb_setattr gpb "key"
                 (match myid with Some k => PScalar (SStr k) | None => PNone end);;
               _set_parents_modified fuel link)) s
            (λ _ s', parents_marked_except X s').
Proof.
  intros IH. induction links as [|link links IHl]; intros s Hnp Hpm.
  { apply wp_ret. revert Hpm. apply parents_marked_except_mono.
    intros p [?|(l & lw & Hl & _)]; [by right|]. by apply elem_of_nil in Hl. }
  cbn [for_each]. apply returns_bind.
  apply returns_bind. unfold _get_myid. apply returns_root_attribute.
  intros wr r rw _ _ _ _. apply returns_bind, returns_GPBMessage; [done|].
  intros lw Hlw Hlv. apply returns_bind, returns_gpb_setattr.
  intros g cls flds d v Hg Hgm Hfld Hval Hkind.
  set (s2 := set_gpb_heap _ s).
  assert (H12 : mark_effect s s2) by exact (mark_effect_key_write s g (VScalar v)).
  assert (Hnp2 : no_proxies s2) by done.
  pose proof (set_parents_modified_effect rfuel backing_store fuel link s2 Hnp2) as He.
  pose proof (IH link s2 (λ p, X p ∨ roots_of s links p) Hnp2) as Hc.
  unfold returns, wp in He, Hc |- *.
  destruct (_set_parents_modified fuel link s2) as [[] s3| |]; [|done|done].
  assert (H13 : mark_effect s s3) by (by etrans).
  apply IHl; [by apply H13|].
  eapply parents_marked_except_mono; [|apply Hc].
  - intros p [?|Hp]; [by right; left|]. right; right.
    by eapply mark_effect_roots_of.
  - intros wr2 r2 Hw2 Hr2.
    apply (parents_marked_except_wrappers _ s); [done|].
    revert Hpm. apply parents_marked_except_mono.
    intros p [?|(l & lw' & Hl & Hlw' & Hp)]; [by right; left; left|].
    right. apply elem_of_cons in Hl as [->|Hl].
    + right. cbn [wrappers s2 set_gpb_heap] in Hw2. congruence.
    + left; right. by exists l, lw'.
Qed.

(** [_set_parents_modified] marks what is missing above a node: if all
    that keeps the marks from being closed under parents is the root of
    the node, they are closed afterwards. *)
Lemma set_parents_modified_closes fuel : ∀ self s (X : ObjId → Prop),
  no_proxies s →
  (∀ wr r, wrappers s !! self = Some wr → _root wr = Some r →
           parents_marked_except (λ p, X p ∨ p = r) s) →
  returns (_set_parents_modified fuel self) s (λ _ s', parents_marked_except X s').
Proof.
  induction fuel as [|fuel IH]; intros self s X Hnp Hpm; [done|].
  apply returns_set_parents_modified.
  { intros wr r rw Hw Hv Hr Hrw Hm.
    eapply parents_marked_except_mono; [|by apply (Hpm wr r)].
    intros p [?| ->]; [by right|]. left. by exists rw. }
  intros wr r rw R rp Hw Hv Hr Hrw Hm HR Hrp new rw1 rp1 s1.
  specialize (Hpm wr r Hw Hr).
  assert (Hnp1 : no_proxies s1).
  { subst s1. unfold no_proxies. cbn [wrappers]. by eapply no_proxies_insert. }
  assert (Hw1 : wrappers s1 !! self = Some (if decide (r = self) then rw1 else wr)).
  { subst s1. cbn [wrappers]. destruct (decide (r = self)) as [->|].
    - by rewrite lookup_insert_eq.
    - by rewrite lookup_insert_ne. }
  assert (Hv1 : _invalid (if decide (r = self) then rw1 else wr) = false).
  { destruct (decide _) as [E|]; [|done]. unfold rw1. cbn. congruence. }
  assert (Hr1 : _root (if decide (r = self) then rw1 else wr) = Some r).
  { destruct (decide _) as [E|]; [|done]. unfold rw1. cbn. congruence. }
  assert (Hrw1 : wrappers s1 !! r = Some rw1) by (subst s1; cbn; by rewrite lookup_insert_eq).
  assert (Hmarked : ∀ p, marked s p ∨ p = r → marked s1 p).
  { intros p [(pw & Hp & Hpm')| ->]; [|by exists rw1].
    destruct (decide (p = r)) as [->|]; [by exists rw1|].
    exists pw. subst s1. cbn [wrappers]. by rewrite lookup_insert_ne. }
  assert (Hroot : ∀ l lw p, wrappers s1 !! l = Some lw → _root lw = Some p →
                            ∃ lw0, wrappers s !! l = Some lw0 ∧ _root lw0 = Some p).
  { intros l lw p Hl Hp. subst s1. cbn [wrappers] in Hl.
    destruct (decide (l = r)) as [->|].
    - rewrite lookup_insert_eq in Hl. exists rw. split; [done|].
      assert (lw = rw1) as -> by congruence. exact Hp.
    - rewrite lookup_insert_ne in Hl by done. by exists lw. }
  (* the marks are closed up to the parents of the node *)
  assert (Hpm1 : ∀ links, _parent_links rw = Some links →
                 parents_marked_except (λ p, X p ∨ roots_of s1 (elements links) p) s1).
  { intros links Hlinks c cw links' l lw p Hc Hcm Hpl Hl Hlw Hp.
    destruct (decide (c = r)) as [->|Hcr].
    - right; right. assert (cw = rw1) as -> by congruence.
      assert (links' = links) as -> by (unfold rw1 in Hpl; cbn in Hpl; congruence).
      exists l, lw. split_and!; [|done|done]. by apply elem_of_elements.
    - assert (Hc0 : wrappers s !! c = Some cw).
      { subst s1. cbn [wrappers] in Hc. by rewrite lookup_insert_ne in Hc. }
      destruct (Hroot l lw p Hlw Hp) as (lw0 & Hlw0 & Hp0).
      destruct (Hpm c cw links' l lw0 p Hc0 Hcm Hpl Hl Hlw0 Hp0) as [?|[?| ->]].
      + left. apply Hmarked. by left.
      + by right; left.
      + left. apply Hmarked. by right. }
  case_bool_decide as Hwsroot.
  - (* the workspace root has no parents any more *)
    unfold _set_parent_links, returns, wp.
    rewrite (set_root_attribute_ok _ _ _ _ _ _ Hw1 Hv1 Hr1 Hrw1).
    intros c cw links l lw p Hc Hcm Hpl Hl Hlw Hp.
    cbn [wrappers set_wrappers] in Hc, Hlw.
    assert (Hmarked2 : ∀ q, marked s1 q →
              marked (set_wrappers (alter (with_parent_links (Some ∅)) r) s1) q).
    { intros q (qw & Hq & Hqm). unfold marked. cbn [wrappers set_wrappers].
      destruct (decide (q = r)) as [->|].
      - eexists. rewrite lookup_alter_eq, Hq. split; [done|]. by destruct qw.
      - exists qw. by rewrite lookup_alter_ne. }
    destruct (decide (c = r)) as [->|Hcr].
    + rewrite lookup_alter_eq, Hrw1 in Hc. injection Hc as <-.
      cbn in Hpl. injection Hpl as <-. by apply elem_of_empty in Hl.
    + rewrite lookup_alter_ne in Hc by done.
      assert (Hc0 : wrappers s !! c = Some cw).
      { subst s1. cbn [wrappers] in Hc. by rewrite lookup_insert_ne in Hc. }
      assert (∃ lw1, wrappers s1 !! l = Some lw1 ∧ _root lw1 = Some p) as (lw1 & Hlw1 & Hp1).
      { destruct (decide (l = r)) as [->|].
        - rewrite lookup_alter_eq, Hrw1 in Hlw. injection Hlw as <-. by exists rw1.
        - rewrite lookup_alter_ne in Hlw by done. by exists lw. }
      destruct (Hroot l lw1 p Hlw1 Hp1) as (lw0 & Hlw0 & Hp0).
      destruct (Hpm c cw links l lw0 p Hc0 Hcm Hpl Hl Hlw0 Hp0) as [?|[?| ->]].
      * left. apply Hmarked2, Hmarked. by left.
      * by right.
      * left. apply Hmarked2, Hmarked. by right.
  - apply returns_bind. unfold _get_parent_links. apply returns_root_attribute.
    intros wr' r' rw' Hw' _ Hr' Hrw'. apply returns_bind, returns_not_None. intros links Hlinks.
    assert (r' = r) as -> by congruence.
    assert (rw' = rw1) as -> by congruence.
    apply parents_loop_closes; [exact IH | done |].
    apply Hpm1. unfold rw1 in Hlinks. exact Hlinks.
Qed.

End Closure.

(** * What marking and assignment keep of the wrappers *)

Global Instance wrappers_kept_preorder : PreOrder wrappers_kept.
Proof.
  split.
  - intros s w. destruct (wrappers s !! w) as [wr|] eqn:E; [|done]. by exists wr.
  - intros s1 s2 s3 H12 H23 w. specialize (H12 w).
    destruct (wrappers s1 !! w) as [wr|].
    + destruct H12 as (wr2 & Hw2 & ? & ? & ? & ?). specialize (H23 w). rewrite Hw2 in H23.
      destruct H23 as (wr3 & Hw3 & ? & ? & ? & ?). exists wr3.
      split_and!; [done | congruence | congruence | congruence | auto].
    + specialize (H23 w). by rewrite H12 in H23.
Qed.

Lemma wrappers_kept_same s s' : wrappers s' = wrappers s → wrappers_kept s s'.
Proof. intros E w. rewrite E. destruct (wrappers s !! w) as [wr|]; [by exists wr | done]. Qed.

Lemma wrappers_kept_alter f x s :
  (∀ wr, _invalid (f wr) = _invalid wr ∧ _root (f wr) = _root wr ∧
         _gpbFields (f wr) = _gpbFields wr ∧
         (_modified wr = Some true → _modified (f wr) = Some true)) →
  wrappers_kept s (set_wrappers (alter f x) s).
Proof.
  intros Hf w. cbn [wrappers set_wrappers]. destruct (decide (w = x)) as [->|].
  - rewrite lookup_alter_eq. destruct (wrappers s !! x) as [wr|]; [|done].
    exists (f wr). split; [done|]. apply Hf.
  - rewrite lookup_alter_ne by done. destruct (wrappers s !! w) as [wr|]; [by exists wr | done].
Qed.

Lemma wrappers_kept_lookup s s' w wr :
  wrappers_kept s s' → wrappers s !! w = Some wr →
  ∃ wr', wrappers s' !! w = Some wr' ∧ _invalid wr' = _invalid wr ∧
         _root wr' = _root wr ∧ _gpbFields wr' = _gpbFields wr ∧
         (_modified wr = Some true → _modified wr' = Some true).
Proof. intros H Hw. specialize (H w). by rewrite Hw in H. Qed.

Lemma wrappers_kept_None s s' w :
  wrappers_kept s s' → wrappers s !! w = None → wrappers s' !! w = None.
Proof. intros H Hw. specialize (H w). by rewrite Hw in H. Qed.

Lemma wrappers_kept_root_marked s s' self :
  wrappers_kept s s' → root_marked s self → root_marked s' self.
Proof.
  intros H (wr & r & rw & Hw & Hv & Hr & Hrw & Hm).
  destruct (wrappers_kept_lookup _ _ _ _ H Hw) as (wr' & Hw' & ? & ? & _).
  destruct (wrappers_kept_lookup _ _ _ _ H Hrw) as (rw' & Hrw' & _ & _ & _ & Hm').
  exists wr', r, rw'. split_and!; [done | congruence | congruence | done | auto].
Qed.

(** A state change keeps the wrappers when it leaves them alone or changes
    none of the attributes in question. *)
Ltac keeps :=
  first [ done
        | match goal with H : _ |- _ => apply H end
        | intros ?; apply wrappers_kept_same; reflexivity
        | intros ?; apply wrappers_kept_alter; intros [];
          cbn; split_and!; (done || congruence) ].

Section Kept.
Context {runtime : Runtime}.
Context (rfuel : nat) (backing_store : ObjId → string → M ObjId).
#[local] Hint Extern 0 RepositoryMethods =>
  exact (spec_repository rfuel backing_store) : typeclass_instances.

Lemma GPBMessage_kept self : steps wrappers_kept (GPBMessage self).
Proof. walk keeps. Qed.

Lemma gpb_setattr_kept gpb name value : steps wrappers_kept (gpb_setattr gpb name value).
Proof. walk keeps. Qed.

Lemma set_parents_modified_kept fuel : ∀ self, steps wrappers_kept (_set_parents_modified fuel self).
Proof.
  induction fuel as [|fuel IH]; intros self; cbn [_set_parents_modified]; walk keeps.
Qed.

(** After [_set_parents_modified] has returned, the root of the wrapper
    carries the mark, whatever the state was. *)
Lemma set_parents_modified_root_marked fuel self s :
  returns (_set_parents_modified fuel self) s (λ _ s', root_marked s' self).
Proof.
  destruct fuel as [|fuel]; [done|].
  apply returns_set_parents_modified.
  { intros wr r rw ?????. by exists wr, r, rw. }
  intros wr r rw R rp Hw Hv Hr Hrw Hm HR Hrp new rw1 rp1 s1.
  assert (H1 : root_marked s1 self).
  { exists (if decide (r = self) then rw1 else wr), r, rw1. subst s1. cbn [wrappers].
    rewrite lookup_insert_eq. destruct (decide (r = self)) as [->|].
    - rewrite lookup_insert_eq. unfold rw1. cbn. split_and!; (done || congruence).
    - rewrite lookup_insert_ne by done. done. }
  pose proof (set_parents_modified_kept fuel) as Hspm.
  eapply returns_mono.
  - apply (behaves_returns wrappers_kept (λ _, True)). walk keeps.
  - cbn beta. intros _ s' Hk. by eapply wrappers_kept_root_marked.
Qed.

End Kept.

(** ** Claims on [_set_parents_modified] *)

Lemma rekey_lookup old new r (ws : gmap string ObjId) :
  old ≠ Some new →
  rekey old new r ws !! new = Some r ∧ ∀ k, old = Some k → rekey old new r ws !! k = None.
Proof.
  intros Hne. unfold rekey. destruct old as [k|]; simpl.
  - assert (k ≠ new) by congruence.
    rewrite lookup_insert_ne by done.
    destruct (ws !! k) eqn:Hk; simpl.
    + rewrite lookup_delete_ne, lookup_insert_eq by done. split; [done|].
      intros k' [= <-]. by rewrite lookup_delete_eq.
    + rewrite lookup_insert_eq. split; [done|].
      intros k' [= <-]. by rewrite lookup_insert_ne.
  - rewrite lookup_insert_eq. split; [done|]. intros k' [=].
Qed.

Section MarkClaims.
Context {runtime : Runtime}.
Context (rfuel : nat) (backing_store : ObjId → string → M ObjId).
#[local] Hint Extern 0 RepositoryMethods =>
  exact (spec_repository rfuel backing_store) : typeclass_instances.

(** One round of the loop over the parent links. *)
Lemma parent_round_effect fuel link v s :
  no_proxies s →
  returns (gpb ← GPBMessage link; gpb_setattr gpb "key" v;; _set_parents_modified fuel link) s
    (λ _ s', mark_effect s s' ∧
             ∀ lw p, wrappers s !! link = Some lw → _root lw = Some p → marked s' p).
Proof.
  intros Hnp. apply returns_bind, returns_GPBMessage; [done|].
  intros lw Hlw Hlv. apply returns_bind, returns_gpb_setattr.
  intros g cls flds d sv Hg Hgm Hfld Hval Hkind.
  set (s2 := set_gpb_heap _ s).
  assert (H12 : mark_effect s s2) by exact (mark_effect_key_write s g (VScalar sv)).
  assert (Hnp2 : no_proxies s2) by done.
  unfold returns, wp.
  pose proof (set_parents_modified_effect rfuel backing_store fuel link s2 Hnp2) as He.
  pose proof (set_parents_modified_marks rfuel backing_store fuel link s2 Hnp2) as Hm.
  unfold returns, wp in He, Hm.
  destruct (_set_parents_modified fuel link s2) as [[] s'| |]; [|done|done].
  split; [by etrans|].
  intros lw' p Hlw' Hp. destruct Hm as (wr & r & rw & Hw' & _ & Hr' & Hrw' & Hmod).
  assert (lw' = lw) as -> by congruence.
  destruct (mark_effect_static _ _ _ _ Hnp2 He Hlw) as (wr2 & Hw2 & _ & Hr2 & _).
  assert (r = p) as -> by congruence. by exists rw.
Qed.

(** While the node keeps its mark, the loop reads the same id in every round. *)
Lemma parents_loop_known_id fuel self wr r rw new links s :
  no_proxies s →
  wrappers s !! self = Some wr → _invalid wr = false → _root wr = Some r →
  wrappers s !! r = Some rw → _modified rw = Some true → _myid rw = Some new →
  for_each links (λ link,
    myid ← _get_myid self;
    gpb ← GPBMessage link;
    gpb_setattr gpb "key" (match myid with Some k => PScalar (SStr k) | None => PNone end);;
    _set_parents_modified fuel link) s =
  for_each links (λ link,
    gpb ← GPBMessage link;
    gpb_setattr gpb "key" (PStr new);;
    _set_parents_modified fuel link) s.
Proof.
  revert s wr. induction links as [|link links IH]; intros s wr Hnp Hw Hv Hr Hrw Hm Hid; [done|].
  cbn [for_each]. unfold _get_myid, PStr.
  rewrite (bind_assoc (root_attribute _myid self)).
  rewrite (bind_Ok _ _ _ _ _ (root_attribute_ok _myid _ _ _ _ _ Hw Hv Hr Hrw)). cbv beta.
  rewrite Hid. apply bind_ext_on. intros [] s2 Hrun.
  pose proof (parent_round_effect fuel link (PStr new) s Hnp) as Hround.
  unfold returns, wp in Hround. unfold PStr in Hround. rewrite Hrun in Hround.
  destruct Hround as [He _].
  destruct (mark_effect_static _ _ _ _ Hnp He Hw) as (wr2 & Hw2 & Hv2 & Hr2 & _).
  fold (PStr new).
  apply (IH s2 wr2); [by apply He | exact Hw2 | congruence | congruence | | done | done].
  by eapply mark_effect_marked.
Qed.

(** C4: marking an unmodified node.  The node gets the mark and the next
    local id of its repository, under which the workspace now holds its
    root, the entry under the old id being removed.  If the root is the
    [_workspace_root] of the repository, its parent links are cleared and
    nothing else changes; otherwise the new id is written into the key of
    each parent link and the parent is marked in turn, so that on return
    every parent carries the mark. *)
Theorem mark_modified_unmodified :
  ∀ fuel self s wr r rw R rp,
    no_proxies s →
    wrappers s !! self = Some wr → _invalid wr = false → _root wr = Some r →
    wrappers s !! r = Some rw → truthy (_modified rw) = false →
    _repository rw = Some R → repos s !! R = Some rp →
    let new := pretty (S (_object_counter rp)) in
    let rw1 := with_myid (Some new) (with_modified (Some true) rw) in
    let ws1 := rekey (_myid rw) new r (_workspace rp) in
    let rp1 := with_workspace ws1 (with_object_counter (S (_object_counter rp)) rp) in
    let s1 := {| gpb_heap := gpb_heap s; wrappers := <[r := rw1]> (wrappers s);
                 cwrappers := cwrappers s; repos := <[R := rp1]> (repos s);
                 next_id := next_id s |} in
    (_myid rw ≠ Some new →
       ws1 !! new = Some r ∧ ∀ old, _myid rw = Some old → ws1 !! old = None) ∧
    (_workspace_root rp = Some r →
       _set_parents_modified (S fuel) self s =
         Ok tt (set_wrappers (<[r := with_parent_links (Some ∅) rw1]>) s1)) ∧
    (_workspace_root rp ≠ Some r →
       ∀ links, _parent_links rw = Some links →
         _set_parents_modified (S fuel) self s =
           for_each (elements links) (λ link,
             gpb ← GPBMessage link;
             gpb_setattr gpb "key" (PStr new);;
             _set_parents_modified fuel link) s1 ∧
         ∀ s', _set_parents_modified (S fuel) self s = Ok tt s' →
               my_id s' r = Some new ∧ marked s' r ∧
               child_links s' r = child_links s r ∧
               ∀ link p, link ∈ links → root_of s link = Some p → marked s' p).
Proof.
  intros fuel self s wr r rw R rp Hnp Hw Hv Hr Hrw Hm HR Hrp new rw1 ws1 rp1 s1.
  pose proof (mark_prefix rfuel backing_store fuel s self wr r rw R rp Hw Hv Hr Hrw Hm HR Hrp)
    as Hprefix.
  cbv zeta in Hprefix. fold new rw1 ws1 rp1 s1 in Hprefix.
  assert (Hnp1 : no_proxies s1).
  { subst s1. unfold no_proxies. cbn [wrappers]. by eapply no_proxies_insert. }
  assert (Hw1 : wrappers s1 !! self = Some (if decide (r = self) then rw1 else wr)).
  { subst s1. cbn [wrappers]. destruct (decide (r = self)) as [->|].
    - by rewrite lookup_insert_eq.
    - by rewrite lookup_insert_ne. }
  assert (Hv1 : _invalid (if decide (r = self) then rw1 else wr) = false).
  { destruct (decide _) as [E|]; [|done]. unfold rw1. cbn. congruence. }
  assert (Hr1 : _root (if decide (r = self) then rw1 else wr) = Some r).
  { destruct (decide _) as [E|]; [|done]. unfold rw1. cbn. congruence. }
  assert (Hrw1 : wrappers s1 !! r = Some rw1) by (subst s1; cbn; by rewrite lookup_insert_eq).
  split_and!.
  - apply rekey_lookup.
  - intros Hroot. rewrite Hprefix, bool_decide_eq_true_2 by done.
    unfold _set_parent_links. rewrite (set_root_attribute_ok _ _ _ _ _ _ Hw1 Hv1 Hr1 Hrw1).
    f_equal. apply State_eq; try done. cbn [wrappers set_wrappers].
    by rewrite (alter_known _ _ _ _ Hrw1).
  - intros Hroot links Hlinks.
    assert (Heq : _set_parents_modified (S fuel) self s =
                  for_each (elements links) (λ link,
                    gpb ← GPBMessage link;
                    gpb_setattr gpb "key" (PStr new);;
                    _set_parents_modified fuel link) s1).
    { rewrite Hprefix, bool_decide_eq_false_2 by congruence.
      unfold _get_parent_links.
      run_with (root_attribute_ok _parent_links _ _ _ _ _ Hw1 Hv1 Hr1 Hrw1).
      unfold rw1 at 1. cbn [_parent_links with_myid with_modified]. rewrite Hlinks.
      cbn [not_None]. run_pure.
      by eapply parents_loop_known_id. }
    split; [exact Heq|].
    intros s' Hrun. rewrite Heq in Hrun.
    assert (Hloop :
      returns (for_each (elements links)
                 (λ link, gpb ← GPBMessage link; gpb_setattr gpb "key" (PStr new);;
                          _set_parents_modified fuel link)) s1
        (λ _ s2, mark_effect s1 s2 ∧
                 ∀ link, link ∈ elements links →
                   ∀ lw p, wrappers s1 !! link = Some lw → _root lw = Some p → marked s2 p)).
    { apply (returns_for_each_each mark_effect
               (λ link s2, ∀ lw p, wrappers s1 !! link = Some lw → _root lw = Some p →
                                   marked s2 p)) with (s0 := s1); [| |reflexivity].
      - intros link s2 _ H12.
        assert (Hnp2 : no_proxies s2) by by apply H12.
        eapply returns_mono; [by apply parent_round_effect|].
        cbn beta. intros _ s3 [H23 Hmark]. split; [done|].
        intros lw p Hlw Hp.
        destruct (mark_effect_static _ _ _ _ Hnp1 H12 Hlw) as (lw2 & Hlw2 & _ & Hr2 & _).
        eapply Hmark; [exact Hlw2 | congruence].
      - intros link s2 s3 H12 H23 HP lw p Hlw Hp.
        destruct (HP lw p Hlw Hp) as (pw & Hpw & Hpm). exists pw. split; [|done].
        eapply mark_effect_marked; [| exact H23 | exact Hpw | exact Hpm]. by apply H12. }
    unfold returns, wp in Hloop. rewrite Hrun in Hloop.
    destruct Hloop as [He Hall].
    pose proof (mark_effect_marked _ _ _ _ Hnp1 He Hrw1 eq_refl) as Hr'.
    split_and!.
    + unfold my_id. by rewrite Hr'.
    + by exists rw1.
    + unfold child_links. by rewrite Hr', Hrw.
    + intros link p Hin Hroot'. unfold root_of in Hroot'.
      destruct (wrappers s !! link) as [lw|] eqn:Hlw; [|done]. cbn in Hroot'.
      assert (Hlw1 : ∃ lw1, wrappers s1 !! link = Some lw1 ∧ _root lw1 = Some p).
      { subst s1. cbn [wrappers]. destruct (decide (link = r)) as [->|].
        - rewrite lookup_insert_eq. eexists. split; [done|].
          unfold rw1. cbn. congruence.
        - rewrite lookup_insert_ne by done. eauto. }
      destruct Hlw1 as (lw1 & Hlw1 & Hp1).
      eapply Hall; [|exact Hlw1|exact Hp1]. by apply elem_of_elements.
Qed.

(** C5: marking is idempotent.  On a node that carries the mark the call
    returns at once and leaves the whole state as it is; so a second call
    in a row changes nothing, whatever the first one did. *)
Theorem mark_modified_idempotent :
  (∀ fuel self s wr r rw,
     wrappers s !! self = Some wr → _invalid wr = false → _root wr = Some r →
     wrappers s !! r = Some rw → _modified rw = Some true →
     _set_parents_modified (S fuel) self s = Ok tt s) ∧
  (∀ fuel fuel' self s s',
     no_proxies s →
     _set_parents_modified fuel self s = Ok tt s' →
     _set_parents_modified (S fuel') self s' = Ok tt s').
Proof.
  split.
  - intros. by eapply mark_modified_noop.
  - intros fuel fuel' self s s' Hnp Hrun.
    pose proof (set_parents_modified_marks rfuel backing_store fuel self s Hnp) as Hm.
    unfold returns, wp in Hm. rewrite Hrun in Hm.
    destruct Hm as (wr & r & rw & Hw & Hv & Hr & Hrw & Hmod).
    by eapply mark_modified_noop.
Qed.

End MarkClaims.

(** * The read-only guard *)

Ltac known := first [done | match goal with H : _ |- _ => apply H end].

Section ReadOnlyGuard.
Context {runtime : Runtime} {repository : RepositoryMethods}.
Context (new_id_ok : ∀ r, never_raises ReadOnlyError (new_id r)).
Context (set_linked_object_ok : ∀ r l v, never_raises ReadOnlyError (set_linked_object r l v)).

Lemma set_parents_modified_not_read_only fuel :
  ∀ self, never_raises ReadOnlyError (_set_parents_modified fuel self).
Proof using new_id_ok.
  induction fuel as [|fuel IH]; intros self; cbn [_set_parents_modified]; walk known.
Qed.

Lemma SetLink_not_read_only fuel self value :
  never_raises ReadOnlyError (SetLink fuel self value).
Proof using new_id_ok set_linked_object_ok.
  pose proof (set_parents_modified_not_read_only fuel). walk known.
Qed.

End ReadOnlyGuard.

(** * The metadata cache is shared by its instances *)

Module MetadataCacheFacts.
Import MetadataCache.




Section Shared.
Context (getAssociatedSource : string → Value).
Context (getAssociatedOwner : string → Value).



End Shared.
End MetadataCacheFacts.

(** * The metadata cache: loading, deleting and counting *)

Module MetadataCacheRows.
Import MetadataCache MetadataCacheLoading.

Section Rows.
Context (getAssociatedSource : string → Value).
Context (getAssociatedOwner : string → Value).
Context (get_instance : string → option ObjId).


Lemma loadDSource_active self d w r :
  resources w !! d = Some r → ResourceLifeCycleState r = ACTIVE r →
  __loadDSourceMetadata self d w =
  set_metadata (<[ResourceIdentity r := dSourceMetadata d r]>)
    (set_resources (alter (with_persistent true) d)
       (update_instance self
          (λ i, {| numDSets := numDSets i; numDSources := numDSources i + 1 |}) w)).
Proof. intros Hr Ha. unfold __loadDSourceMetadata. by rewrite Hr, decide_True. Qed.



(** The row of a data source: of the properties and of the station ids
    the last one is kept. *)
Lemma dSourceMetadata_entries d r :
  let row := dSourceMetadata d r in
  row !! TYPE = Some (VStr DSOURCE) ∧ row !! DSOURCE = Some (VResource d) ∧
  row !! DSET = None ∧
  row !! PROPERTY = last (property r) ∧ row !! STATION_ID = last (station_id r) ∧
  row !! LCS = Some (VStr (ResourceLifeCycleState r)).
Proof.
  unfold dSourceMetadata. cbn zeta. rewrite !lookup_insert_ne by done.
  rewrite lookup_insert_eq.
  assert (Hprop : ∀ ps : list Value,
            let row : gmap string Value :=
              foldl (λ row p, <[PROPERTY := p]> row)
                    (<[DSOURCE := VResource d]> (<[TYPE := VStr DSOURCE]> ∅)) ps in
            row !! TYPE = Some (VStr DSOURCE) ∧ row !! DSOURCE = Some (VResource d) ∧
            row !! DSET = None ∧ row !! PROPERTY = last ps ∧ row !! STATION_ID = None).
  { induction ps as [|p ps IH] using rev_ind.
    { cbn. split_and!; vm_compute; reflexivity. }
    cbn zeta in IH |- *. rewrite foldl_snoc. destruct IH as (? & ? & ? & ? & ?).
    rewrite lookup_insert_eq, last_snoc. by rewrite !lookup_insert_ne by done. }
  destruct (Hprop (property r)) as (Hty & Hds & Hno & Hp & Hs). clear Hprop.
  revert Hty Hds Hno Hp Hs.
  match goal with |- context [foldl ?f ?row (property r)] =>
    generalize (foldl f row (property r)) end.
  intros row0 Hty Hds Hno Hp Hs.
  induction (station_id r) as [|sid sids IH] using rev_ind; [done|].
  rewrite foldl_snoc. destruct IH as (? & ? & ? & ? & ? & _).
  rewrite lookup_insert_eq, last_snoc. by rewrite !lookup_insert_ne by done.
Qed.


(** X3: [deleteDSetMetadata] deletes data sets only.  For an id that is
    not cached, and for the id of a cached data source (its row has no
    entry [DSET]), the [KeyError] is caught: the answer is [False] and
    nothing changes; the data source is still there for [getDSource],
    while [getDSet] answers [None] for it. *)
Theorem deleteDSetMetadata_not_a_data_set self id d r w :
  get_instance id = Some d → resources w !! d = Some r →
  ResourceLifeCycleState r = ACTIVE r →
  let w1 := putDSourceMetadata get_instance self id w in
  deleteDSetMetadata self (ResourceIdentity r) w1 = (false, w1) ∧
  getDSet self (ResourceIdentity r) w1 = None ∧
  getDSource self (ResourceIdentity r) w1 = Some (VResource d) ∧
  ∀ other, __metadata w1 !! other = None →
    deleteDSetMetadata self other w1 = (false, w1) ∧
    deleteDSourceMetadata self other w1 = (false, w1).
Proof.
  intros Hget Hr Hactive w1. subst w1. unfold putDSourceMetadata. rewrite Hget.
  rewrite (loadDSource_active self d w r Hr Hactive).
  destruct (dSourceMetadata_entries d r) as (_ & Hsrc & Hds & _).
  unfold deleteDSetMetadata, deleteDSourceMetadata, delete_metadata, getDSet, getDSource,
    self___metadata.
  cbn [__metadata set_metadata set_resources update_instance set_instances].
  rewrite lookup_insert_eq. cbn [mbind option_bind]. rewrite Hds, Hsrc.
  split_and!; try done. by intros other ->.
Qed.


(** X5: a data source row holds one property and one station id: each
    pass of the two loops overwrites the entry, so the last element of
    [property] and of [station_id] stays, and none when the list is empty. *)
Theorem dSource_row_last_property self d r w :
  resources w !! d = Some r → ResourceLifeCycleState r = ACTIVE r →
  let w1 := __loadDSourceMetadata self d w in
  ∃ row, getDSourceMetadata self (ResourceIdentity r) w1 = Some row ∧
         row !! TYPE = Some (VStr DSOURCE) ∧
         row !! PROPERTY = last (property r) ∧
         row !! STATION_ID = last (station_id r).
Proof.
  intros Hr Hactive w1. subst w1. rewrite (loadDSource_active self d w r Hr Hactive).
  destruct (dSourceMetadata_entries d r) as (Hty & _ & _ & Hp & Hs & _).
  eexists. split; [unfold getDSourceMetadata, self___metadata; cbn; apply lookup_insert_eq|].
  done.
Qed.






End Rows.
End MetadataCacheRows.

(** * Attribute access: invalidated wrappers, read-only structures *)

Section Access.
Context {runtime : Runtime} {repository : RepositoryMethods}.

(** Whatever starts with the validity test stops there on an invalidated
    wrapper. *)
Lemma check_valid_first {A} (k : unit → M A) s self wr :
  wrappers s !! self = Some wr → _invalid wr = true →
  (check_valid self ≫= k) s = Raise InvalidatedObjectError s.
Proof. intros Hw Hv. apply bind_Raise. by eapply check_valid_invalid. Qed.

Lemma fmap_Raise {A B} (f : A → B) (m : M A) s e s1 :
  m s = Raise e s1 → (f <$> m) s = Raise e s1.
Proof. intros H. by rewrite fmap_unfold, H. Qed.

(** Every property but [Invalid] refuses an invalidated wrapper. *)
Lemma properties_invalid s self wr name prop :
  wrappers s !! self = Some wr → _invalid wr = true →
  (name, prop) ∈ properties → name ≠ "Invalid" →
  prop self s = Raise InvalidatedObjectError s.
Proof.
  intros Hw Hv Hin Hne. unfold properties in Hin.
  repeat (apply elem_of_cons in Hin as [[= -> ->]|Hin]); try done;
    try (by apply elem_of_nil in Hin);
    try apply fmap_Raise;
    first [ by eapply check_valid_first ].
Qed.

(** X8: an invalidated wrapper refuses every use but the question
    [Invalid]: reading [Invalid] answers [True]; reading any other
    attribute, any property, any assignment and every method that tests
    [_invalid] raise the error "Can not access Invalidated Object" and
    leave the state as it is.  [Invalidate] itself is among them (it
    reads [IsRoot]): invalidating twice raises. *)
Theorem invalidated_wrapper_refuses fuel self wr s :
  wrappers s !! self = Some wr → _invalid wr = true →
  __getattribute__ self "Invalid" s = Ok (PBool true) s ∧
  (∀ key, key ≠ "Invalid" → __getattribute__ self key s = Raise InvalidatedObjectError s) ∧
  (∀ name prop, (name, prop) ∈ properties → name ≠ "Invalid" →
     prop self s = Raise InvalidatedObjectError s) ∧
  (∀ key value, __setattr__ fuel self key value s = Raise InvalidatedObjectError s) ∧
  (∀ value, SetLink fuel self value s = Raise InvalidatedObjectError s) ∧
  (∀ name value, SetLinkByName fuel self name value s = Raise InvalidatedObjectError s) ∧
  (∀ name, GetLink self name s = Raise InvalidatedObjectError s) ∧
  (∀ value, InParents (S fuel) self value s = Raise InvalidatedObjectError s) ∧
  (∀ link, AddParentLink self link s = Raise InvalidatedObjectError s) ∧
  (∀ gpb, _rewrap self gpb s = Raise InvalidatedObjectError s) ∧
  (∀ structure, RecurseCommit (S fuel) self structure s = Raise InvalidatedObjectError s) ∧
  (∀ name, ClearField (S fuel) self name s = Raise InvalidatedObjectError s) ∧
  SerializeToString self s = Raise InvalidatedObjectError s ∧
  (∀ bytes, ParseFromString self bytes s = Raise InvalidatedObjectError s) ∧
  _set_parents_modified (S fuel) self s = Raise InvalidatedObjectError s ∧
  Invalidate (S fuel) self s = Raise InvalidatedObjectError s.
Proof.
  intros Hw Hv.
  assert (Hfirst : ∀ A (k : unit → M A),
            (check_valid self ≫= k) s = Raise InvalidatedObjectError s)
    by (intros; by eapply check_valid_first).
  split_and!; intros; try apply Hfirst.
  - unfold __getattribute__. by rewrite (bind_Ok _ _ _ _ _ (the_wrapper_ok _ _ _ Hw)), Hv.
  - unfold __getattribute__. rewrite (bind_Ok _ _ _ _ _ (the_wrapper_ok _ _ _ Hw)), Hv.
    by rewrite bool_decide_false.
  - by eapply properties_invalid.
  - cbn [Invalidate]. apply bind_Raise. apply Hfirst.
Qed.

(** The guard of [__setattr__] at work. *)
Lemma setattr_read_only_at fuel self wr r rw key value s :
  wrappers s !! self = Some wr → _invalid wr = false → key ∈ _gpbFields wr →
  _root wr = Some r → wrappers s !! r = Some rw → truthy (_read_only rw) = true →
  __setattr__ fuel self key value s = Raise ReadOnlyError s.
Proof.
  intros Hw Hv Hkey Hr Hrw Hro. unfold __setattr__.
  run_with (check_valid_ok _ _ _ Hw Hv). run_with (the_wrapper_ok _ _ _ Hw).
  rewrite bool_decide_true by done. unfold _get_readonly.
  run_with (root_attribute_ok _read_only _ _ _ _ _ Hw Hv Hr Hrw). by rewrite Hro.
Qed.

(** X9: the read-only guard of [__setattr__]: on a valid wrapper of a
    structure whose root has [ReadOnly] set, the assignment of any value
    to any field of the message raises "This object wrapper is read
    only!" before anything is written: the state is untouched. *)
Theorem setattr_read_only fuel self wr r rw key value s :
  wrappers s !! self = Some wr → _invalid wr = false → key ∈ _gpbFields wr →
  _root wr = Some r → wrappers s !! r = Some rw → truthy (_read_only rw) = true →
  __setattr__ fuel self key value s = Raise ReadOnlyError s.
Proof. apply setattr_read_only_at. Qed.

(** X10: [ReadOnly] is one flag for the whole structure, kept on the
    root: set through any wrapper [a] of the structure, it is read as
    [True] through every other wrapper [b] of it, whose fields then
    refuse assignment. *)
Theorem ReadOnly_shared_by_structure fuel a wa b wb r rw key value s :
  wrappers s !! a = Some wa → _invalid wa = false → _root wa = Some r →
  wrappers s !! b = Some wb → _invalid wb = false → _root wb = Some r →
  wrappers s !! r = Some rw →
  "ReadOnly" ∉ _gpbFields wa → "ReadOnly" ∉ _gpbFields wb → key ∈ _gpbFields wb →
  let s1 := set_wrappers (alter (with_read_only (Some true)) r) s in
  __setattr__ fuel a "ReadOnly" (PBool true) s = Ok tt s1 ∧
  __getattribute__ b "ReadOnly" s1 = Ok (PBool true) s1 ∧
  __setattr__ fuel b key value s1 = Raise ReadOnlyError s1.
Proof.
  intros Ha Hva Hra Hb Hvb Hrb Hrw Hna Hnb Hkey s1.
  pose proof (lookup_alter_wrapper (with_read_only (Some true)) r s b wb Hb) as Hb1.
  pose proof (lookup_alter_wrapper (with_read_only (Some true)) r s r rw Hrw) as Hr1.
  rewrite decide_True in Hr1 by done. fold s1 in Hb1, Hr1.
  set (wb1 := if decide (r = b) then with_read_only (Some true) wb else wb) in *.
  assert (_invalid wb1 = false ∧ _root wb1 = Some r ∧ _gpbFields wb1 = _gpbFields wb)
    as (Hvb1 & Hrb1 & Hfb1) by (unfold wb1; by destruct (decide _)).
  split_and!.
  - unfold __setattr__.
    run_with (check_valid_ok _ _ _ Ha Hva). run_with (the_wrapper_ok _ _ _ Ha).
    rewrite bool_decide_false by done.
    unfold try_except, object_setattr. cbn [assoc property_setters].
    repeat (rewrite decide_False by done). rewrite decide_True by done.
    run_with (check_valid_ok _ _ _ Ha Hva). cbn [PBool]. unfold _set_readonly.
    by rewrite (set_root_attribute_ok _ _ _ _ _ _ Ha Hva Hra Hrw).
  - unfold __getattribute__.
    run_with (the_wrapper_ok _ _ _ Hb1). rewrite Hvb1, Hfb1.
    rewrite bool_decide_false by done.
    unfold try_except, object_getattribute. cbn [assoc properties].
    repeat (rewrite decide_False by done). rewrite decide_True by done.
    unfold _get_readonly. rewrite fmap_unfold.
    by rewrite (root_attribute_ok _read_only _ _ _ _ _ Hb1 Hvb1 Hrb1 Hr1).
  - apply (setattr_read_only_at fuel b wb1 r (with_read_only (Some true) rw) key value s1);
      try done.
    by rewrite Hfb1.
Qed.



End Access.

(** * [SetStructureReadOnly] and the flag [ReadOnly] *)

Global Instance flags_kept_preorder : PreOrder flags_kept.
Proof.
  split.
  - intros s w. destruct (wrappers s !! w) as [wr|] eqn:E; [|done]. by exists wr.
  - intros s1 s2 s3 H12 H23 w. specialize (H12 w).
    destruct (wrappers s1 !! w) as [wr|]; [|done].
    destruct H12 as (wr2 & Hw2 & ? & ? & ? & ?). specialize (H23 w). rewrite Hw2 in H23.
    destruct H23 as (wr3 & Hw3 & ? & ? & ? & ?). exists wr3.
    split_and!; [done | congruence ..].
Qed.






Section Structure.
Context {runtime : Runtime} {repository : RepositoryMethods}.
Context (get_linked_object_keeps : ∀ r l, steps flags_kept (get_linked_object r l)).





End Structure.


(** * The claims at work on the address book *)

Section Witnesses.
Import AddressBook.

(** C4 on the committed person: it is not the workspace root, so its one
    parent, the address book, is marked as well. *)
Lemma mark_modified_unmodified_witness :
  let s' := state_after (_set_parents_modified 4 p) committed in
  my_id s' p = Some "3" ∧ marked s' p ∧ marked s' ab.
Proof.
  intros s'.
  assert (Hnp : no_proxies committed) by (apply (bool_decide_unpack _); vm_compute; reflexivity).
  assert (∃ wr, wrappers committed !! p = Some wr ∧ _invalid wr = false ∧ _root wr = Some p ∧
                truthy (_modified wr) = false ∧ _repository wr = Some 0 ∧
                _parent_links wr = Some {[owner_link]}) as (wr & Hw & Hv & Hr & Hm & HR & Hpl).
  { eexists. split; [vm_compute; reflexivity|]. by vm_compute. }
  assert (∃ rp, repos committed !! 0 = Some rp ∧ _workspace_root rp = None) as (rp & Hrp & Hroot).
  { eexists. split; [vm_compute; reflexivity|]. by vm_compute. }
  destruct (mark_modified_unmodified 8 empty_backing_store 3 p committed wr p wr 0 rp
              Hnp Hw Hv Hr Hw Hm HR Hrp) as (_ & _ & Hother).
  destruct (Hother ltac:(congruence) _ Hpl) as [_ Hpost].
  destruct (Hpost s') as (Hid & Hmark & _ & Hparents).
  { subst s'. vm_compute. reflexivity. }
  split_and!; [| done |].
  - rewrite Hid. f_equal. assert (_object_counter rp = 2) as ->; [|by vm_compute].
    assert (Some rp = repos committed !! 0) as Heq by done. vm_compute in Heq. by injection Heq as ->.
  - apply (Hparents owner_link ab); [set_solver | by vm_compute].
Defined.

End Witnesses.

(** * The metadata cache at work on one data set and one data source *)

Section MetadataWitnesses.
Import MetadataCache MetadataCacheLoading MetadataCacheRows MetadataExample.



(** X3 on the data source [buoy-7]. *)
Lemma deleteDSetMetadata_not_a_data_set_witness :
  let w1 := putDSourceMetadata get_instance 0 "buoy-7" world in
  deleteDSetMetadata 0 "buoy-7" w1 = (false, w1) ∧
  getDSet 0 "buoy-7" w1 = None ∧
  getDSource 0 "buoy-7" w1 = Some (VResource 2) ∧
  ∀ other, __metadata w1 !! other = None →
    deleteDSetMetadata 0 other w1 = (false, w1) ∧
    deleteDSourceMetadata 0 other w1 = (false, w1).
Proof.
  refine (deleteDSetMetadata_not_a_data_set get_instance 0 "buoy-7" 2 buoy world _ _ _);
    vm_compute; reflexivity.
Defined.


(** X5 on the data source [buoy-7]: of its two properties the second
    one is cached. *)
Lemma dSource_row_last_property_witness :
  ∃ row, getDSourceMetadata 0 "buoy-7" (__loadDSourceMetadata 0 2 world) = Some row ∧
         row !! TYPE = Some (VStr DSOURCE) ∧
         row !! PROPERTY = Some (VStr "salinity") ∧
         row !! STATION_ID = Some (VStr "41012").
Proof.
  refine (dSource_row_last_property 0 2 buoy world _ _); vm_compute; reflexivity.
Defined.



End MetadataWitnesses.

(** * Attribute access at work on the address book *)

Section AccessWitnesses.
Import AddressBook.

(** The wrapper [w] of the state [s], by evaluation. *)
Ltac the_wrapper_of s w wr Hw :=
  assert (∃ wr, wrappers s !! w = Some wr) as [wr Hw] by (eexists; vm_compute; reflexivity).
Ltac by_evaluation :=
  lazymatch goal with
  | |- _ = _ => vm_compute; reflexivity
  | |- _ => apply (bool_decide_unpack _); vm_compute; reflexivity
  end.

(** X8 on the person, invalidated. *)
Lemma invalidated_wrapper_refuses_witness :
  __getattribute__ p "Invalid" stale = Ok (PBool true) stale ∧
  __getattribute__ p "name" stale = Raise InvalidatedObjectError stale ∧
  __setattr__ 8 p "name" (PStr "Dave") stale = Raise InvalidatedObjectError stale ∧
  Invalidate 8 p stale = Raise InvalidatedObjectError stale.
Proof.
  the_wrapper_of stale p wr Hw.
  assert (Hv : _invalid wr = true).
  { assert (Some wr = wrappers stale !! p) as Heq by done.
    vm_compute in Heq. by injection Heq as ->. }
  destruct (invalidated_wrapper_refuses 7 p wr stale Hw Hv)
    as (H1 & H2 & _ & _ & _ & _ & _ & _ & _ & _ & _ & _ & _ & _ & _ & H3).
  destruct (invalidated_wrapper_refuses 8 p wr stale Hw Hv) as (_ & _ & _ & H4 & _).
  split_and!; [done | by apply H2 | apply H4 | done].
Defined.

(** X9 on the address book, read-only. *)
Lemma setattr_read_only_witness :
  __setattr__ 8 ab "title" (PStr "Friends") frozen = Raise ReadOnlyError frozen.
Proof.
  the_wrapper_of frozen ab wr Hw.
  assert (Some wr = wrappers frozen !! ab) as Heq by done. vm_compute in Heq.
  apply (setattr_read_only 8 ab wr ab wr "title" (PStr "Friends") frozen Hw);
    [| | |done|]; injection Heq as ->; by_evaluation.
Defined.

(** X10: [ReadOnly] set through the link [owner] of the address book. *)
Lemma ReadOnly_shared_by_structure_witness :
  let s1 := set_wrappers (alter (with_read_only (Some true)) ab) linked in
  __setattr__ 8 owner_link "ReadOnly" (PBool true) linked = Ok tt s1 ∧
  __getattribute__ ab "ReadOnly" s1 = Ok (PBool true) s1 ∧
  __setattr__ 8 ab "title" (PStr "Friends") s1 = Raise ReadOnlyError s1.
Proof.
  the_wrapper_of linked owner_link wl Hl. the_wrapper_of linked ab wr Hw.
  assert (Some wl = wrappers linked !! owner_link) as Heql by done. vm_compute in Heql.
  assert (Some wr = wrappers linked !! ab) as Heq by done. vm_compute in Heq.
  apply (ReadOnly_shared_by_structure 8 owner_link wl ab wr ab wr "title" (PStr "Friends")
           linked Hl); [| |done| | |done| | |];
    injection Heql as ->; injection Heq as ->; by_evaluation.
Defined.




End AccessWitnesses.

